(** * go-hdb protocol layer: type codes, query result sets, result set cache

    A shallow embedding of

    - [internal/protocol/typecode.go]: the [typeCode] constants, their
      predicates, [encTc], [dataTypeMap] and [dataType];
    - the query result set of package [protocol]: [queryResultSet] with
      [Close], [Next], [HasNextResultSet], [NextResultSet], and the
      [queryResultSetCache] with [set], [Get] and [cleanup];
    - the timestamp rounding exercised by [TestTimestampRounding].

    Go maps are finite maps ([gmap]), the slice [rrs] is a list read by index,
    the session is an explicit state threaded through every call. *)

From Stdlib Require Import ZArith NArith Lia String.
From stdpp Require Import base decidable option list gmap fin_maps.
From Stdlib Require Strings.Byte.

Local Open Scope N_scope.

(** A Go call either returns or panics; the panics of this code are the
    missing [DataType] of [dataType] and the empty argument list of
    [newQueryResultSet]. *)
Inductive panic : Type :=
| MissingDataType (tc : N)
| EmptyQueryResultSet.

Inductive outcome (A : Type) : Type :=
| Ret (a : A)
| Panic (p : panic).
Arguments Ret {A} a.
Arguments Panic {A} p.

(** ** Type codes ([typecode.go]) *)

Module TypeCode.

(** [type typeCode byte]: the numeric value of the byte. *)
Definition typeCode : Type := N.

Definition tcNullL : typeCode := 0x00.
Definition tcTinyint : typeCode := 0x01.
Definition tcSmallint : typeCode := 0x02.
Definition tcInteger : typeCode := 0x03.
Definition tcBigint : typeCode := 0x04.
Definition tcDecimal : typeCode := 0x05.
Definition tcReal : typeCode := 0x06.
Definition tcDouble : typeCode := 0x07.
Definition tcChar : typeCode := 0x08.
Definition tcVarchar : typeCode := 0x09.
Definition tcNchar : typeCode := 0x0A.
Definition tcNvarchar : typeCode := 0x0B.
Definition tcBinary : typeCode := 0x0C.
Definition tcVarbinary : typeCode := 0x0D.
Definition tcDate : typeCode := 0x0E.
Definition tcTime : typeCode := 0x0F.
Definition tcTimestamp : typeCode := 0x10.
Definition tcTimetz : typeCode := 0x11.
Definition tcTimeltz : typeCode := 0x12.
Definition tcTimestampTz : typeCode := 0x13.
Definition tcTimestampLtz : typeCode := 0x14.
Definition tcIntervalYm : typeCode := 0x15.
Definition tcIntervalDs : typeCode := 0x16.
Definition tcRowid : typeCode := 0x17.
Definition tcUrowid : typeCode := 0x18.
Definition tcClob : typeCode := 0x19.
Definition tcNclob : typeCode := 0x1A.
Definition tcBlob : typeCode := 0x1B.
Definition tcBoolean : typeCode := 0x1C.
Definition tcString : typeCode := 0x1D.
Definition tcNstring : typeCode := 0x1E.
Definition tcLocator : typeCode := 0x1F.
Definition tcNlocator : typeCode := 0x20.
Definition tcBstring : typeCode := 0x21.
Definition tcDecimalDigitArray : typeCode := 0x22.
Definition tcVarchar2 : typeCode := 0x23.
Definition tcTable : typeCode := 0x2D.
Definition tcSmalldecimal : typeCode := 0x2f.
Definition tcAbapstream : typeCode := 0x30.
Definition tcAbapstruct : typeCode := 0x31.
Definition tcAarray : typeCode := 0x32.
Definition tcText : typeCode := 0x33.
Definition tcShorttext : typeCode := 0x34.
Definition tcBintext : typeCode := 0x35.
Definition tcAlphanum : typeCode := 0x37.
Definition tcLongdate : typeCode := 0x3D.
Definition tcSeconddate : typeCode := 0x3E.
Definition tcDaydate : typeCode := 0x3F.
Definition tcSecondtime : typeCode := 0x40.
Definition tcClocator : typeCode := 0x46.
Definition tcBlobDiskReserved : typeCode := 0x47.
Definition tcClobDiskReserved : typeCode := 0x48.
Definition tcNclobDiskReserved : typeCode := 0x49.
Definition tcStGeometry : typeCode := 0x4A.
Definition tcStPoint : typeCode := 0x4B.
Definition tcFixed16 : typeCode := 0x4C.
Definition tcAbapItab : typeCode := 0x4D.
Definition tcRecordRowStore : typeCode := 0x4E.
Definition tcRecordColumnStore : typeCode := 0x4F.
Definition tcFixed8 : typeCode := 0x51.
Definition tcFixed12 : typeCode := 0x52.
Definition tcCiphertext : typeCode := 0x5A.
(* additional internal typecodes *)
Definition tcTableRef : typeCode := 0x7e.
Definition tcTableRows : typeCode := 0x7f.

(** [tc == c] on type codes. *)
Definition eqTc (tc c : typeCode) : bool := N.eqb tc c.

Definition isLob (tc : typeCode) : bool :=
  eqTc tc tcClob || eqTc tc tcNclob || eqTc tc tcBlob || eqTc tc tcText
  || eqTc tc tcBintext || eqTc tc tcLocator.

Definition isCharBased (tc : typeCode) : bool :=
  eqTc tc tcNvarchar || eqTc tc tcNstring || eqTc tc tcNclob || eqTc tc tcText
  || eqTc tc tcBintext.

Definition isVariableLength (tc : typeCode) : bool :=
  eqTc tc tcChar || eqTc tc tcNchar || eqTc tc tcVarchar || eqTc tc tcNvarchar
  || eqTc tc tcBinary || eqTc tc tcVarbinary || eqTc tc tcShorttext
  || eqTc tc tcAlphanum.

Definition isIntegerType (tc : typeCode) : bool :=
  eqTc tc tcTinyint || eqTc tc tcSmallint || eqTc tc tcInteger || eqTc tc tcBigint.

Definition isDecimalType (tc : typeCode) : bool :=
  eqTc tc tcSmalldecimal || eqTc tc tcDecimal.

(** [encTc]: the [switch] with the three-way [case] and the [default]. *)
Definition encTc (tc : typeCode) : typeCode :=
  if eqTc tc tcText || eqTc tc tcBintext || eqTc tc tcLocator then tcNclob else tc.

(** The codes of the [case] of [encTc]. *)
Definition aliased : list typeCode := [tcText; tcBintext; tcLocator].

(** The [DataType] values named by [dataTypeMap]; the type is declared in
    another file of the package, [typecode.go] uses these constants of it. *)
Inductive DataType : Type :=
| DtTinyint | DtSmallint | DtInteger | DtBigint | DtReal | DtDouble
| DtDecimal | DtTime | DtString | DtBytes | DtLob | DtRows.

#[global] Instance DataType_eq_dec : EqDecision DataType.
Proof. solve_decision. Defined.

(** The composite literal of [dataTypeMap], in source order. *)
Definition dataTypeMap_literal : list (typeCode * DataType) :=
  [ (tcTinyint, DtTinyint);
    (tcSmallint, DtSmallint);
    (tcInteger, DtInteger);
    (tcBigint, DtBigint);
    (tcReal, DtReal);
    (tcDouble, DtDouble);
    (tcDate, DtTime);
    (tcTime, DtTime);
    (tcTimestamp, DtTime);
    (tcLongdate, DtTime);
    (tcSeconddate, DtTime);
    (tcDaydate, DtTime);
    (tcSecondtime, DtTime);
    (tcDecimal, DtDecimal);
    (tcChar, DtString);
    (tcVarchar, DtString);
    (tcString, DtString);
    (tcAlphanum, DtString);
    (tcNchar, DtString);
    (tcNvarchar, DtString);
    (tcNstring, DtString);
    (tcShorttext, DtString);
    (tcBinary, DtBytes);
    (tcVarbinary, DtBytes);
    (tcBlob, DtLob);
    (tcClob, DtLob);
    (tcNclob, DtLob);
    (tcText, DtLob);
    (tcBintext, DtLob);
    (tcTableRef, DtString);
    (tcTableRows, DtRows) ].

(** [var dataTypeMap = map[typeCode]DataType{...}]. *)
Definition dataTypeMap : gmap typeCode DataType :=
  list_to_map dataTypeMap_literal.

(** The type codes that are keys of [dataTypeMap]. *)
Definition registry : list typeCode := dataTypeMap_literal.*1.

Definition registered (tc : typeCode) : bool :=
  bool_decide (tc ∈ registry).

(** [dataType]: the comma-ok lookup; a miss panics with the message
    formatted from ["Missing DataType for typeCode %s"] and the code. *)
Definition dataType (tc : typeCode) : outcome DataType :=
  match dataTypeMap !! tc with
  | Some dt => Ret dt
  | None => Panic (MissingDataType tc)
  end.

#[global] Instance panic_eq_dec : EqDecision panic.
Proof. solve_decision. Defined.

#[global] Instance outcome_eq_dec `{EqDecision A} : EqDecision (outcome A).
Proof. solve_decision. Defined.

(** The [fieldType] values named by [tcFieldTypeMap]; they are declared in
    another file of the package, one value per kind of field encoding. *)
Inductive fieldKind : Type :=
| tinyintType | smallintType | integerType | bigintType | realType
| doubleType | dateType | timeType | timestampType | longdateType
| seconddateType | daydateType | secondtimeType | decimalType | varType
| alphaType | cesu8Type | lobVarType | lobCESU8Type.

#[global] Instance fieldKind_eq_dec : EqDecision fieldKind.
Proof. solve_decision. Defined.

(** The composite literal of [tcFieldTypeMap], in source order. *)
Definition tcFieldTypeMap_literal : list (typeCode * fieldKind) :=
  [ (tcTinyint, tinyintType);
    (tcSmallint, smallintType);
    (tcInteger, integerType);
    (tcBigint, bigintType);
    (tcReal, realType);
    (tcDouble, doubleType);
    (tcDate, dateType);
    (tcTime, timeType);
    (tcTimestamp, timestampType);
    (tcLongdate, longdateType);
    (tcSeconddate, seconddateType);
    (tcDaydate, daydateType);
    (tcSecondtime, secondtimeType);
    (tcDecimal, decimalType);
    (tcChar, varType);
    (tcVarchar, varType);
    (tcString, varType);
    (tcAlphanum, alphaType);
    (tcNchar, cesu8Type);
    (tcNvarchar, cesu8Type);
    (tcNstring, cesu8Type);
    (tcShorttext, cesu8Type);
    (tcBinary, varType);
    (tcVarbinary, varType);
    (tcBlob, lobVarType);
    (tcClob, lobVarType);
    (tcNclob, lobCESU8Type);
    (tcText, lobCESU8Type);
    (tcBintext, lobCESU8Type);
    (tcLocator, lobCESU8Type) ].

(** [var tcFieldTypeMap = map[typeCode]fieldType{...}]. *)
Definition tcFieldTypeMap : gmap typeCode fieldKind :=
  list_to_map tcFieldTypeMap_literal.

(** What [fieldType] does: it returns, or panics with the message formatted
    from ["Missing FieldType for typeCode %s"] and the code. *)
Inductive fieldTypeResult : Type :=
| FieldType (f : fieldKind)
| MissingFieldType (tc : typeCode).

#[global] Instance fieldTypeResult_eq_dec : EqDecision fieldTypeResult.
Proof. solve_decision. Defined.

Definition fieldType (tc : typeCode) : fieldTypeResult :=
  match tcFieldTypeMap !! tc with
  | Some f => FieldType f
  | None => MissingFieldType tc
  end.

(** The codes with the high bit clear, [0x00] to [0x7f]. *)
Definition lowCodes : list typeCode := N.of_nat <$> seq 0 128.

(** The null value indicator of a field is the high bit of the code byte. *)
Definition nullIndicator (tc : typeCode) : bool := N.testbit tc 7.

End TypeCode.

(** ** Query result sets (package [protocol]) *)

Module ResultSet.

(** Go's [error] values that reach a result set: [io.EOF],
    [driver.ErrBadConn], and whatever a request to the server reports. *)
Inductive error : Type :=
| EOF
| ErrBadConn
| ErrServer (msg : string).

#[global] Instance error_eq_dec : EqDecision error.
Proof. solve_decision. Defined.

(** The identity of a [*Session] pointer. *)
Definition addr : Type := N.

(** [driver.Value]: plain values, and values implementing [sessionSetter]
    (large objects), which remember the session they read from. *)
Inductive Value : Type :=
| VNull
| VInt (z : Z)
| VString (v : string)
| VLob (locator : N) (session : option addr).

Definition row : Type := list Value.

(** [if v, ok := v.(sessionSetter); ok { v.setSession(r.s) }]. *)
Definition setSession (a : addr) (v : Value) : Value :=
  match v with
  | VLob l _ => VLob l (Some a)
  | _ => v
  end.

(** Modelled from the spec: the [rowsResult] interface and its implementation
    are declared in another file of the package. A result is what the spec calls
    a result-set page: the identifier of the server-side result set, the rows
    in order, and the attributes of the packet that delivered them. [Next]
    reads [lastPacket] and [Close] reads [closed]; they are two methods and
    two fields here. *)
Record rowsResult : Type := mkRowsResult {
  rsID : N;
  rows : list row;
  lastPacket : bool;
  closed : bool
}.

Definition numRow (rr : rowsResult) : nat := length (rows rr).

#[global] Instance row_inhabited : Inhabited row := populate [].

(** [copyRow(idx, dest)]: the row at [idx]. [Next] calls it below the guard
    [pos >= numRow], so the index is in range (lemma [copyRow_guarded]). *)
Definition copyRow (rr : rowsResult) (i : nat) : row := rows rr !!! i.

(** Modelled from the spec: [Session] is declared in another file of the
    package. The spec's boundary gives [fetchNext(resultSetID) -> (page, isLastPacket)]
    and [closeResultSet(resultSetID) -> ack | error]. The server is a
    collaborator: [server n] is its answer to the [n]-th request of the
    session, [sent] the requests issued so far, oldest first. An answer
    carries the error (if any), the page that the request leaves in the
    result, and whether the connection is broken afterwards. *)
Record reply : Type := mkReply {
  rp_err : option error;
  rp_rows : list row;
  rp_lastPacket : bool;
  rp_closed : bool;
  rp_bad : bool
}.

Inductive request : Type :=
| ReqFetchNext (id : N)
| ReqCloseResultset (id : N).

#[global] Instance request_eq_dec : EqDecision request.
Proof. solve_decision. Defined.

Record Session : Type := mkSession {
  self : addr;
  bad : bool;
  server : nat -> reply;
  sent : list request
}.

Definition IsBad (sess : Session) : bool := bad sess.

Definition send (sess : Session) (q : request) : Session * reply :=
  let rp := server sess (length (sent sess)) in
  (mkSession (self sess) (bad sess || rp_bad rp) (server sess)
     (sent sess ++ [q]), rp).

(** [s.fetchNext(rr)]: one request; the result [rr] is updated in place. *)
Definition fetchNext (sess : Session) (rr : rowsResult)
  : Session * rowsResult * option error :=
  let '(sess', rp) := send sess (ReqFetchNext (rsID rr)) in
  (sess',
   mkRowsResult (rsID rr) (rp_rows rp) (rp_lastPacket rp) (rp_closed rp),
   rp_err rp).

(** [s.CloseResultsetID(id)]. *)
Definition CloseResultsetID (sess : Session) (id : N)
  : Session * option error :=
  let '(sess', rp) := send sess (ReqCloseResultset id) in
  (sess', rp_err rp).

(** Requests of each kind issued so far. *)
Definition isFetch (q : request) : bool :=
  match q with ReqFetchNext _ => true | _ => false end.
Definition isClose (q : request) : bool :=
  match q with ReqCloseResultset _ => true | _ => false end.
Definition fetchCalls (sess : Session) : nat :=
  length (filter (λ q, isFetch q = true) (sent sess)).
Definition closeCalls (sess : Session) : nat :=
  length (filter (λ q, isClose q = true) (sent sess)).

(** [type queryResultSet struct]. [s] is the pointer to the session; the
    session's state is passed to and returned by every method. [rr] is the
    same object as [rrs[idx]]: a fetch, which updates [rr] in place, is
    written to both. [idx] and [pos] only grow by one below a bound given by
    a slice length, so they are natural numbers. *)
Record queryResultSet : Type := mkQueryResultSet {
  s : addr;
  rrs : list rowsResult;
  rr : rowsResult;
  idx : nat;
  pos : nat;
  lastErr : option error
}.

#[global] Instance rowsResult_inhabited : Inhabited rowsResult :=
  populate (mkRowsResult 0 [] false false).

Definition newQueryResultSet (a : addr) (results : list rowsResult)
  : outcome queryResultSet :=
  match results with
  | [] => Panic EmptyQueryResultSet
  | rr0 :: _ => Ret (mkQueryResultSet a results rr0 0 0 None)
  end.

(** What a call of [Next] hands back: [nil] with [dest] filled, or an error. *)
Inductive nextResult : Type :=
| Row (dest : row)
| Err (e : error).

(** The in-place update of the current result by [fetchNext]. *)
Definition fetched (r : queryResultSet) (rr' : rowsResult) : queryResultSet :=
  mkQueryResultSet (s r) (<[idx r := rr']> (rrs r)) rr' (idx r) (pos r)
    (lastErr r).

(** The tail of [Next]: [copyRow], [r.pos++] and the [setSession] loop. *)
Definition copyNext (sess : Session) (r : queryResultSet)
  : Session * queryResultSet * nextResult :=
  (sess,
   mkQueryResultSet (s r) (rrs r) (rr r) (idx r) (S (pos r)) (lastErr r),
   Row (setSession (s r) <$> copyRow (rr r) (pos r))).

Definition Next (sess : Session) (r : queryResultSet)
  : Session * queryResultSet * nextResult :=
  if IsBad sess then (sess, r, Err ErrBadConn)
  else if decide (numRow (rr r) ≤ pos r)%nat then
    if lastPacket (rr r) then (sess, r, Err EOF)
    else
      let '(sess', rr', err) := fetchNext sess (rr r) in
      let r' := fetched r rr' in
      match err with
      | Some e =>
          (sess',
           mkQueryResultSet (s r') (rrs r') (rr r') (idx r') (pos r') (Some e),
           Err e)
      | None =>
          if decide (numRow (rr r') = 0%nat) then (sess', r', Err EOF)
          else
            copyNext sess'
              (mkQueryResultSet (s r') (rrs r') (rr r') (idx r') 0 (lastErr r'))
      end
  else copyNext sess r.

Definition Close (sess : Session) (r : queryResultSet)
  : Session * option error :=
  match lastErr r with
  | Some e => (sess, Some e)
  | None =>
      if negb (closed (rr r)) then CloseResultsetID sess (rsID (rr r))
      else (sess, None)
  end.

Definition HasNextResultSet (r : queryResultSet) : bool :=
  bool_decide (idx r + 1 < length (rrs r))%nat.

(** [r.rr = r.rrs[r.idx]] is below the guard [HasNextResultSet], so the
    index is in range (lemma [NextResultSet_guarded]). *)
Definition NextResultSet (r : queryResultSet)
  : queryResultSet * option error :=
  if negb (HasNextResultSet r) then (r, Some EOF)
  else
    (mkQueryResultSet (s r) (rrs r) (rrs r !!! S (idx r)) (S (idx r)) (pos r)
       None,
     None).

(** *** The result set cache *)

(** [cache map[uint64]*queryResultSet]; the mutex makes every method one
    step. *)
Definition set (c : gmap N queryResultSet) (id : N) (qrs : queryResultSet)
  : gmap N queryResultSet * N :=
  (<[id := qrs]> c, id).

(** [qrs, ok := c.cache[id]]. *)
Definition Get (c : gmap N queryResultSet) (id : N)
  : option queryResultSet * bool :=
  match c !! id with
  | Some qrs => (Some qrs, true)
  | None => (None, false)
  end.

(** One iteration of the [range] loop of [cleanup]. *)
Definition cleanup_visit (a : addr) (c : gmap N queryResultSet)
  (e : N * queryResultSet) : gmap N queryResultSet :=
  if decide (s e.2 = a) then delete e.1 c else c.

(** The loop over the entries in the order [order]; Go leaves the order of a
    [range] over a map unspecified. *)
Definition cleanup_range (a : addr) (order : list (N * queryResultSet))
  (c : gmap N queryResultSet) : gmap N queryResultSet :=
  foldl (cleanup_visit a) c order.

Definition cleanup (c : gmap N queryResultSet) (a : addr)
  : gmap N queryResultSet :=
  cleanup_range a (map_to_list c) c.

End ResultSet.

(** ** Timestamps written to a column of coarser precision *)

Module Timestamp.

Local Open Scope Z_scope.

(** The fields of [time.Date(year, month, day, hour, min, sec, nsec, UTC)]. *)
Record civil : Type := mkCivil {
  year : Z;
  month : Z;
  day : Z;
  hour : Z;
  minute : Z;
  second : Z;
  nanosecond : Z
}.

#[global] Instance civil_eq_dec : EqDecision civil.
Proof. solve_decision. Defined.

(** Days between 1970-01-01 and a date of the proleptic Gregorian calendar,
    and back (years counted from March, eras of 400 years). *)
Definition daysFromCivil (y m d : Z) : Z :=
  let y' := if m <=? 2 then y - 1 else y in
  let era := y' / 400 in
  let yoe := y' - era * 400 in
  let mp := (m + 9) mod 12 in
  let doy := (153 * mp + 2) / 5 + d - 1 in
  let doe := yoe * 365 + yoe / 4 - yoe / 100 + doy in
  era * 146097 + doe - 719468.

Definition civilFromDays (z : Z) : Z * Z * Z :=
  let z' := z + 719468 in
  let era := z' / 146097 in
  let doe := z' - era * 146097 in
  let yoe := (doe - doe / 1460 + doe / 36524 - doe / 146096) / 365 in
  let doy := doe - (365 * yoe + yoe / 4 - yoe / 100) in
  let mp := (5 * doy + 2) / 153 in
  let d := doy - (153 * mp + 2) / 5 + 1 in
  let m := if mp <? 10 then mp + 3 else mp - 9 in
  let y := yoe + era * 400 in
  (if m <=? 2 then y + 1 else y, m, d).

Definition nanosPerSecond : Z := 1000000000.

(** The instant of a civil time, in nanoseconds since 1970-01-01 00:00:00. *)
Definition toNanos (c : civil) : Z :=
  (((daysFromCivil (year c) (month c) (day c) * 24 + hour c) * 60
    + minute c) * 60 + second c) * nanosPerSecond + nanosecond c.

Definition ofNanos (n : Z) : civil :=
  let secs := n / nanosPerSecond in
  let days := secs / 86400 in
  let sod := secs mod 86400 in
  let '(y, m, d) := civilFromDays days in
  mkCivil y m d (sod / 3600) (sod mod 3600 / 60) (sod mod 60)
    (n mod nanosPerSecond).

(** Modelled from the spec: the encoder of temporal parameters is in another
    package of the driver; [TestTimestampRounding] exercises it against a
    database. The spec says that a
    value finer than the column's precision is rounded to the nearest
    representable unit, carrying into the seconds and the date fields. [unit]
    is the column's representable unit in nanoseconds; a tie rounds up. *)
Definition roundTo (unit n : Z) : Z := (n + unit / 2) / unit * unit.

(** Truncation, which the spec says the encoder does not do. *)
Definition truncateTo (unit n : Z) : Z := n / unit * unit.

Definition encodeTimestamp (unit : Z) (c : civil) : civil :=
  ofNanos (roundTo unit (toNanos c)).

(** The value of [TestTimestampRounding] and the value it expects back. *)
Definition inserted : civil := mkCivil 2000 12 31 23 59 59 999999900.
Definition expected : civil := mkCivil 2001 1 1 0 0 0 0.

End Timestamp.

(** ** Successive calls *)

Import ResultSet.

(** [n] successive calls of [Next], with what each call handed back. *)
Fixpoint nexts (n : nat) (sess : Session) (r : queryResultSet)
  : Session * queryResultSet * list nextResult :=
  match n with
  | O => (sess, r, [])
  | S n' =>
      let '(sess1, r1, x) := Next sess r in
      let '(sess2, r2, xs) := nexts n' sess1 r1 in
      (sess2, r2, x :: xs)
  end.

(** What [Next] hands back for a row of the result: the row, its large
    objects bound to the session of the result set. *)
Definition delivered (a : addr) (rw : row) : nextResult :=
  Row (setSession a <$> rw).

(** The cursor with [lastErr] replaced, to compare cursors that differ in
    the recorded error only. *)
Definition setLastErr (r : queryResultSet) (le : option error)
  : queryResultSet :=
  mkQueryResultSet (s r) (rrs r) (rr r) (idx r) (pos r) le.

(** ** Concrete sessions and result sets *)

Module Scenario.

Definition fetchFailed : error := ErrServer "fetch failed".

(** A server that never fails and has no more rows. *)
Definition silent : nat → reply := λ _, mkReply None [] true true false.

(** A server whose first answer is a page of two rows, a large object among
    them, flagged last packet and result set closed. *)
Definition lastPage : nat → reply :=
  λ n, match n with
       | O => mkReply None [[VInt 4]; [VLob 9 None]] true true false
       | S _ => mkReply None [] true true false
       end.

(** A server whose first answer is an error that leaves the connection
    usable, with no rows and no attributes in the result, and whose second
    answer is a last page of one row. *)
Definition flaky : nat → reply :=
  λ n, match n with
       | O => mkReply (Some fetchFailed) [] false false false
       | S _ => mkReply None [[VInt 7]] true true false
       end.

(** The same, but the failed fetch leaves the three rows and the attributes
    of [firstPage] in the result. *)
Definition flakyKeeping : nat → reply :=
  λ n, match n with
       | O => mkReply (Some fetchFailed)
                [[VInt 1]; [VInt 2]; [VString "c"]] false false false
       | S _ => mkReply None [[VInt 7]] true true false
       end.

(** A server whose first answer is an empty page that is not the last. *)
Definition emptyPage : nat → reply :=
  λ n, match n with
       | O => mkReply None [] false false false
       | S _ => mkReply None [[VInt 7]] true true false
       end.

Definition session (answers : nat → reply) : Session :=
  mkSession 1 false answers [].

(** A first page of three rows, more to come. *)
Definition firstPage : rowsResult :=
  mkRowsResult 7 [[VInt 1]; [VInt 2]; [VString "c"]] false false.

(** Two complete result sets of one call: three rows, then two rows. *)
Definition resultA : rowsResult :=
  mkRowsResult 1 [[VInt 1]; [VInt 2]; [VInt 3]] true true.
Definition resultB : rowsResult :=
  mkRowsResult 2 [[VString "x"]; [VString "y"]] true true.

Definition cursor (results : list rowsResult) : queryResultSet :=
  match newQueryResultSet 1 results with
  | Ret r => r
  | Panic _ => mkQueryResultSet 1 [] inhabitant 0 0 None
  end.

End Scenario.

(** ** Runs of calls and scripted pages *)

(** [n] successive calls of [NextResultSet], with what each call returned. *)
Fixpoint nextResultSets (n : nat) (r : queryResultSet)
  : queryResultSet * list (option error) :=
  match n with
  | O => (r, [])
  | S n' =>
      let '(r1, e) := NextResultSet r in
      let '(r2, es) := nextResultSets n' r1 in
      (r2, e :: es)
  end.

(** [r.rr] is [r.rrs[r.idx]]. *)
Definition current (r : queryResultSet) : Prop :=
  rrs r !! idx r = Some (rr r).

(** The server answers the coming requests, if they are fetches, with the
    pages [pages] in order: no error, no page empty, the last page flagged
    last packet and no other, the connection left usable. *)
Definition serves (sess : Session) (pages : list (list row)) : Prop :=
  ∀ i page, pages !! i = Some page →
    page ≠ []
    ∧ rp_err (server sess (length (sent sess) + i)) = None
    ∧ rp_rows (server sess (length (sent sess) + i)) = page
    ∧ rp_lastPacket (server sess (length (sent sess) + i))
      = bool_decide (S i = length pages)
    ∧ rp_bad (server sess (length (sent sess) + i)) = false.

(** A server that has the pages [pages] to deliver, flagging the last one
    last packet and result set closed. *)
Definition pagesServer (pages : list (list row)) : nat → reply :=
  λ n, mkReply None (pages !!! n) (bool_decide (S n = length pages))
         (bool_decide (S n = length pages)) false.

(** [newQueryResultSetCache]: the empty cache. *)
Definition newQueryResultSetCache : gmap N queryResultSet := ∅.

(** ** Helpers of the data type tests (package [driver]) *)

Module DataTypeTest.

Import Timestamp.

#[global] Instance byte_eq_dec : EqDecision Byte.byte := Byte.byte_eq_dec.

(** A Go string or byte slice is the list of its bytes. *)
Definition space : Byte.byte := Byte.x20.

(** [utf8.RuneSelf]: bytes below it are runes of their own. *)
Definition RuneSelf : N := 0x80.

(** [isASCII]: the loop returns [false] at the first byte that is not below
    [utf8.RuneSelf]. *)
Fixpoint isASCII (content : list Byte.byte) : bool :=
  match content with
  | [] => true
  | b :: rest =>
      if (RuneSelf <=? Byte.to_N b)%N then false else isASCII rest
  end.

(** [for _, r := range str { if r != rune(' ') { return false } }; return
    true]. A [range] over a string decodes one rune per step: a byte below
    [utf8.RuneSelf] is the rune itself; at any other byte the rune decoded is
    [utf8.RuneError] or a code point from 0x80 up, not a space, so the loop
    returns there. *)
Fixpoint onlySpaces (str : list Byte.byte) : bool :=
  match str with
  | [] => true
  | b :: rest =>
      if (Byte.to_N b <? RuneSelf)%N then
        if negb (Byte.eqb b space) then false else onlySpaces rest
      else false
  end.

(** [compareStringFixSize(in, out)]. The slice expressions [out[:len(in)]]
    and [out[len(in):]] of a string panic when [len(in)] is above
    [len(out)]: [None]. *)
Definition compareStringFixSize (input out : list Byte.byte) : option bool :=
  if decide (length input ≤ length out)%nat then
    if bool_decide (input ≠ take (length input) out) then Some false
    else Some (onlySpaces (drop (length input) out))
  else None.

(** The comparisons of [time.Time] values, on the fields that [Year],
    [Month], [Day], [Hour], [Minute], [Second] and [Nanosecond] return; the
    division of Go's [int] truncates. *)
Definition equalDate (t1 t2 : civil) : bool :=
  (year t1 =? year t2)%Z && (month t1 =? month t2)%Z && (day t1 =? day t2)%Z.

Definition equalTime (t1 t2 : civil) : bool :=
  (hour t1 =? hour t2)%Z && (minute t1 =? minute t2)%Z
  && (second t1 =? second t2)%Z.

Definition equalDateTime (t1 t2 : civil) : bool :=
  equalDate t1 t2 && equalTime t1 t2.

Definition equalMillisecond (t1 t2 : civil) : bool :=
  (nanosecond t1 ÷ 1000000 * 1000000 =? nanosecond t2 ÷ 1000000 * 1000000)%Z.

Definition equalTimestamp (t1 t2 : civil) : bool :=
  equalDate t1 t2 && equalTime t1 t2 && equalMillisecond t1 t2.

Definition equalLongdate (t1 t2 : civil) : bool :=
  equalDate t1 t2 && equalTime t1 t2
  && (nanosecond t1 ÷ 100 =? nanosecond t2 ÷ 100)%Z.

(** [type testLobFile struct]. *)
Record testLobFile : Type := mkTestLobFile {
  content : list Byte.byte;
  isASCII_ : bool
}.

(** What the [walk] function appends for a file. *)
Definition readLobFile (bytes : list Byte.byte) : testLobFile :=
  mkTestLobFile bytes (isASCII bytes).

(** The values that [lobTestData] appends: a [NullLob] or a [Lob] reading
    the content of a file. *)
Inductive lobValue : Type :=
| NullLobOf (valid : bool) (bytes : list Byte.byte)
| LobOf (bytes : list Byte.byte).

(** The bytes that a value reads. *)
Definition lobBytes (v : lobValue) : list Byte.byte :=
  match v with NullLobOf _ bytes => bytes | LobOf bytes => bytes end.

(** The loop of [lobTestData], with its variable [first]. *)
Fixpoint lobTestData_loop (ascii : bool) (files : list testLobFile)
  (first : bool) (testData : list lobValue) : list lobValue :=
  match files with
  | [] => testData
  | f :: rest =>
      if negb ascii || isASCII_ f then
        let testData1 :=
          if first then
            testData ++ [NullLobOf false (content f)]
                     ++ [NullLobOf true (content f)]
          else testData in
        lobTestData_loop ascii rest false (testData1 ++ [LobOf (content f)])
      else lobTestData_loop ascii rest first testData
  end.

Definition lobTestData (testLobFiles : list testLobFile) (ascii : bool)
  : list lobValue :=
  lobTestData_loop ascii testLobFiles true [].

End DataTypeTest.

(** * Properties *)

(** ** Type codes *)

Section TypeCodeFacts.

Import TypeCode.

Lemma registry_NoDup : NoDup registry.
Proof. apply (bool_decide_unpack (NoDup registry)). vm_compute. exact I. Qed.

Lemma dataTypeMap_lookup (tc : typeCode) (dt : DataType) :
  dataTypeMap !! tc = Some dt ↔ (tc, dt) ∈ dataTypeMap_literal.
Proof.
  unfold dataTypeMap. symmetry. apply elem_of_list_to_map.
  exact registry_NoDup.
Qed.

Lemma dataTypeMap_lookup_None (tc : typeCode) :
  dataTypeMap !! tc = None ↔ tc ∉ registry.
Proof. unfold dataTypeMap, registry. symmetry. apply not_elem_of_list_to_map. Qed.

(** C1. Classification by [dataType] is a function of the type code. A code
    that is a key of [dataTypeMap] is returned the data type of its one entry;
    a code that is no key panics, and so returns no data type at all. *)
Theorem dataType_registry_total (tc : typeCode) :
  (registered tc = true
   ∧ ∃ dt, dataType tc = Ret dt
           ∧ ∀ dt', (tc, dt') ∈ dataTypeMap_literal ↔ dt' = dt)
  ∨ (registered tc = false
     ∧ dataType tc = Panic (MissingDataType tc)
     ∧ ∀ dt, dataType tc ≠ Ret dt).
Proof.
  unfold registered, dataType.
  destruct (dataTypeMap !! tc) as [dt|] eqn:E.
  - left. split.
    + apply bool_decide_eq_true.
      apply dataTypeMap_lookup in E.
      apply list_elem_of_fmap. by exists (tc, dt).
    + exists dt. split; [done|]. intros dt'. rewrite <- dataTypeMap_lookup.
      split; [congruence | intros ->; done].
  - right. split; [|split; [done | discriminate]].
    apply bool_decide_eq_false. by apply dataTypeMap_lookup_None.
Qed.

Lemma eqTc_true (tc c : typeCode) : eqTc tc c = true ↔ tc = c.
Proof. unfold eqTc. apply N.eqb_eq. Qed.

Lemma aliased_spec (tc : typeCode) :
  tc ∈ aliased ↔ tc = tcText ∨ tc = tcBintext ∨ tc = tcLocator.
Proof.
  unfold aliased. rewrite !elem_of_cons, elem_of_nil. tauto.
Qed.

Lemma encTc_cases (tc : typeCode) :
  (tc ∈ aliased ∧ encTc tc = tcNclob) ∨ ((tc ∉ aliased) ∧ encTc tc = tc).
Proof.
  unfold encTc. rewrite aliased_spec.
  destruct (eqTc tc tcText) eqn:E1.
  { apply eqTc_true in E1. left. split; tauto. }
  destruct (eqTc tc tcBintext) eqn:E2.
  { apply eqTc_true in E2. left. split; tauto. }
  destruct (eqTc tc tcLocator) eqn:E3.
  { apply eqTc_true in E3. left. split; tauto. }
  right. split; [ | reflexivity ].
  intros [ -> | [ -> | -> ] ]; discriminate.
Qed.

(** C7. [encTc] sends [tcText], [tcBintext] and [tcLocator] to [tcNclob],
    these three are the only codes it changes, and applying it twice is
    applying it once. *)
Theorem encTc_alias_idempotent (tc : typeCode) :
  encTc tcText = tcNclob ∧ encTc tcBintext = tcNclob
  ∧ encTc tcLocator = tcNclob
  ∧ (encTc tc ≠ tc ↔ tc = tcText ∨ tc = tcBintext ∨ tc = tcLocator)
  ∧ encTc (encTc tc) = encTc tc.
Proof.
  rewrite <- aliased_spec.
  split; [reflexivity|]. split; [reflexivity|]. split; [reflexivity|].
  destruct (encTc_cases tc) as [[Hin Hn]|[Hout Heq]]; split.
  - split; [done|]. intros _. rewrite Hn. intros <-.
    apply aliased_spec in Hin. destruct Hin as [?|[?|?]]; discriminate.
  - rewrite Hn. reflexivity.
  - split; [intros Hne; contradiction | intros Hin; contradiction].
  - by rewrite !Heq.
Qed.

End TypeCodeFacts.

(** ** The result set cache *)

Section CacheFacts.

Implicit Types (c : gmap N queryResultSet) (a : addr) (id : N).

Lemma cleanup_visit_lookup a c (e : N * queryResultSet) id :
  cleanup_visit a c e !! id
  = if decide (s e.2 = a ∧ e.1 = id) then None else c !! id.
Proof.
  unfold cleanup_visit.
  destruct (decide (s e.2 = a)) as [Hs|Hs].
  - destruct (decide (e.1 = id)) as [<-|Hne].
    + rewrite lookup_delete_eq. by rewrite decide_True.
    + rewrite lookup_delete_ne by done. rewrite decide_False; [done | tauto].
  - rewrite decide_False; [done | tauto].
Qed.

(** The keys of the entries of [order] owned by session [a]. *)
Lemma owned_keys_spec a (order : list (N * queryResultSet)) id :
  id ∈ (filter (λ e, s e.2 = a) order).*1 ↔ ∃ q, (id, q) ∈ order ∧ s q = a.
Proof.
  rewrite list_elem_of_fmap. split.
  - intros ([id' q] & -> & Hin). apply list_elem_of_filter in Hin.
    exists q. simpl in *. tauto.
  - intros (q & Hin & Hq). exists (id, q). split; [done|].
    apply list_elem_of_filter. done.
Qed.

(** The loop deletes the keys of the visited entries owned by [a], whatever
    the order of the visits. *)
Lemma cleanup_range_lookup a (order : list (N * queryResultSet)) c id :
  cleanup_range a order c !! id
  = if decide (id ∈ (filter (λ e, s e.2 = a) order).*1) then None
    else c !! id.
Proof.
  unfold cleanup_range. revert c.
  induction order as [|e order IH]; intros c.
  - simpl foldl. case_decide as Hin; [|done].
    apply owned_keys_spec in Hin. destruct Hin as (q & Hin & _).
    by apply elem_of_nil in Hin.
  - simpl foldl. rewrite IH, cleanup_visit_lookup.
    repeat case_decide; try done.
    + exfalso.
      match goal with H : ¬ (id ∈ (filter _ (e :: order)).*1) |- _ => apply H end.
      apply owned_keys_spec.
      match goal with H : id ∈ _ |- _ => apply owned_keys_spec in H;
        destruct H as (q & Hin & Hq) end.
      exists q. split; [by apply list_elem_of_further | done].
    + exfalso.
      match goal with H : ¬ (id ∈ (filter _ (e :: order)).*1) |- _ => apply H end.
      apply owned_keys_spec.
      match goal with H : _ ∧ _ |- _ => destruct H as [Hs He] end.
      exists e.2. split; [|done].
      rewrite <- He. destruct e. apply list_elem_of_here.
    + exfalso.
      match goal with H : id ∈ (filter _ (e :: order)).*1 |- _ =>
        apply owned_keys_spec in H; destruct H as (q & Hin & Hq) end.
      apply elem_of_cons in Hin. destruct Hin as [<-|Hin].
      * match goal with H : ¬ (_ ∧ _) |- _ => apply H end. done.
      * match goal with H : ¬ (id ∈ (filter _ order).*1) |- _ => apply H end.
        apply owned_keys_spec. by exists q.
Qed.

Lemma cleanup_lookup c a id :
  cleanup c a !! id
  = match c !! id with
    | Some q => if decide (s q = a) then None else Some q
    | None => None
    end.
Proof.
  unfold cleanup. rewrite cleanup_range_lookup.
  destruct (c !! id) as [q|] eqn:E.
  - destruct (decide (s q = a)) as [Hs|Hs].
    + rewrite decide_True; [done|]. apply owned_keys_spec.
      exists q. by rewrite elem_of_map_to_list.
    + rewrite decide_False; [done|]. rewrite owned_keys_spec.
      intros (q' & Hin & Hq').
      apply elem_of_map_to_list in Hin. congruence.
  - rewrite decide_False; [done|]. rewrite owned_keys_spec.
    intros (q' & Hin & _).
    apply elem_of_map_to_list in Hin. congruence.
Qed.

(** Any order of visiting the entries gives the same cache. *)
Lemma cleanup_order_irrelevant c a (order : list (N * queryResultSet)) :
  order ≡ₚ map_to_list c → cleanup_range a order c = cleanup c a.
Proof.
  intros Hp. apply map_eq. intros id. unfold cleanup.
  rewrite !cleanup_range_lookup.
  assert (id ∈ (filter (λ e, s e.2 = a) order).*1
          ↔ id ∈ (filter (λ e, s e.2 = a) (map_to_list c)).*1) as Hiff.
  { rewrite !owned_keys_spec. by setoid_rewrite Hp. }
  destruct (decide (id ∈ (filter (λ e, s e.2 = a) order).*1)) as [Hin|Hno].
  - rewrite decide_True; [done | tauto].
  - rewrite decide_False; [done | tauto].
Qed.

(** C5. After [set c id qrs], [Get id] returns [qrs] and [true]; after
    [cleanup] for the session of [qrs] it returns [false]; and [cleanup c a]
    removes the entries whose result set belongs to session [a] and keeps
    every other entry as it was. *)
Theorem cache_set_Get_cleanup c id (qrs : queryResultSet) a :
  Get (set c id qrs).1 id = (Some qrs, true)
  ∧ (set c id qrs).2 = id
  ∧ Get (cleanup (set c id qrs).1 (s qrs)) id = (None, false)
  ∧ ∀ id',
      Get (cleanup c a) id'
      = match c !! id' with
        | Some q => if decide (s q = a) then (None, false) else (Some q, true)
        | None => (None, false)
        end.
Proof.
  unfold Get, set. simpl. repeat split.
  - by rewrite lookup_insert_eq.
  - rewrite cleanup_lookup, lookup_insert_eq. by rewrite decide_True.
  - intros id'. rewrite cleanup_lookup.
    destruct (c !! id') as [q|]; [|done]. by destruct (decide (s q = a)).
Qed.

End CacheFacts.

(** ** The result set: single calls *)

Section CursorFacts.

Implicit Types (sess : Session) (r : queryResultSet) (res : rowsResult).
Implicit Types (e : error) (q : request).

Local Open Scope nat_scope.

Lemma fetchCalls_snoc sess q rp :
  fetchCalls (mkSession (self sess) (bad sess || rp_bad rp) (server sess)
                (sent sess ++ [q]))
  = fetchCalls sess + (if isFetch q then 1 else 0).
Proof.
  unfold fetchCalls. simpl. rewrite filter_app, length_app.
  destruct q; reflexivity.
Qed.

Lemma closeCalls_snoc sess q rp :
  closeCalls (mkSession (self sess) (bad sess || rp_bad rp) (server sess)
                (sent sess ++ [q]))
  = closeCalls sess + (if isClose q then 1 else 0).
Proof.
  unfold closeCalls. simpl. rewrite filter_app, length_app.
  destruct q; reflexivity.
Qed.

(** The four ways through [Next]. *)
Lemma Next_bad sess r :
  bad sess = true → Next sess r = (sess, r, Err ErrBadConn).
Proof. intros H. unfold Next, IsBad. by rewrite H. Qed.

Lemma Next_copy sess r :
  bad sess = false → pos r < numRow (rr r) → Next sess r = copyNext sess r.
Proof.
  intros Hb Hlt. unfold Next, IsBad. rewrite Hb.
  rewrite decide_False by lia. reflexivity.
Qed.

Lemma Next_last sess r :
  bad sess = false → numRow (rr r) ≤ pos r → lastPacket (rr r) = true →
  Next sess r = (sess, r, Err EOF).
Proof.
  intros Hb Hge Hl. unfold Next, IsBad. rewrite Hb.
  rewrite decide_True by lia. by rewrite Hl.
Qed.

Lemma Next_fetch sess r :
  bad sess = false → numRow (rr r) ≤ pos r → lastPacket (rr r) = false →
  Next sess r
  = let rp := server sess (length (sent sess)) in
    let sess' := (send sess (ReqFetchNext (rsID (rr r)))).1 in
    let r' := fetched r (mkRowsResult (rsID (rr r)) (rp_rows rp)
                           (rp_lastPacket rp) (rp_closed rp)) in
    match rp_err rp with
    | Some e =>
        (sess',
         mkQueryResultSet (s r') (rrs r') (rr r') (idx r') (pos r') (Some e),
         Err e)
    | None =>
        match rp_rows rp with
        | [] => (sess', r', Err EOF)
        | _ :: _ =>
            copyNext sess'
              (mkQueryResultSet (s r') (rrs r') (rr r') (idx r') 0 (lastErr r'))
        end
    end.
Proof.
  intros Hb Hge Hl. unfold Next, IsBad. rewrite Hb.
  rewrite decide_True by lia. rewrite Hl.
  unfold fetchNext, send. cbn zeta beta iota.
  destruct (rp_err (server sess (length (sent sess)))); [reflexivity|].
  unfold fetched, numRow. cbn [rr rows].
  destruct (rp_rows (server sess (length (sent sess)))); reflexivity.
Qed.

(** The index handed to [copyRow] is in range: [Next] reaches [copyRow] with
    [pos] below the number of rows. *)
Lemma copyRow_guarded res i :
  i < numRow res → rows res !! i = Some (copyRow res i).
Proof.
  intros Hlt. unfold copyRow. apply list_lookup_lookup_total_lt. exact Hlt.
Qed.

Lemma NextResultSet_guarded r :
  HasNextResultSet r = true →
  rrs r !! S (idx r) = Some (rrs r !!! S (idx r)).
Proof.
  unfold HasNextResultSet. intros H. apply bool_decide_eq_true in H.
  apply list_lookup_lookup_total_lt. lia.
Qed.

(** A call of [Next] sends at most one request, and only ever a fetch. *)
Lemma Next_sent sess r :
  (Next sess r).1.1 = sess
  ∨ (bad sess = false ∧ numRow (rr r) ≤ pos r ∧ lastPacket (rr r) = false
     ∧ (Next sess r).1.1 = (send sess (ReqFetchNext (rsID (rr r)))).1).
Proof.
  destruct (bad sess) eqn:Hb.
  { left. by rewrite Next_bad. }
  destruct (decide (numRow (rr r) ≤ pos r)) as [Hge|Hlt].
  - destruct (lastPacket (rr r)) eqn:Hl.
    + left. by rewrite Next_last.
    + right. repeat split; try done. rewrite Next_fetch by done.
      cbn zeta.
      destruct (rp_err _); [reflexivity|].
      destruct (rp_rows _); reflexivity.
  - left. rewrite Next_copy by (done || lia). reflexivity.
Qed.

(** ** The result set: successive calls *)

Lemma nexts_app n m sess r :
  nexts (n + m) sess r
  = let '(sess1, r1, xs) := nexts n sess r in
    let '(sess2, r2, ys) := nexts m sess1 r1 in
    (sess2, r2, xs ++ ys).
Proof.
  revert sess r. induction n as [|n IH]; intros sess r; simpl.
  - by destruct (nexts m sess r) as [[? ?] ?].
  - destruct (Next sess r) as [[sess1 r1] x]. rewrite IH.
    destruct (nexts n sess1 r1) as [[sess2 r2] xs].
    by destruct (nexts m sess2 r2) as [[? ?] ?].
Qed.

(** On a healthy session, the rows of the current page from [pos] on are
    handed back one per call, in order, without a request. *)
Lemma nexts_rows sess r (pre rest : list row) :
  bad sess = false → rows (rr r) = pre ++ rest → pos r = length pre →
  nexts (length rest) sess r
  = (sess,
     mkQueryResultSet (s r) (rrs r) (rr r) (idx r) (numRow (rr r)) (lastErr r),
     delivered (s r) <$> rest).
Proof.
  intros Hb. revert pre r.
  induction rest as [|x rest IH]; intros pre r Hrows Hpos.
  - simpl. destruct r as [a l cur i p le]. simpl in *.
    unfold numRow. rewrite Hrows, length_app, Nat.add_0_r. by subst p.
  - cbn [length nexts].
    assert (rows (rr r) !! pos r = Some x) as Hx.
    { rewrite Hrows, Hpos. apply list_lookup_middle. reflexivity. }
    rewrite Next_copy; [|done|].
    2:{ unfold numRow. apply lookup_lt_Some in Hx. exact Hx. }
    unfold copyNext.
    rewrite (IH (pre ++ [x])); cbn [rr pos s rrs idx lastErr].
    + unfold delivered at 2, copyRow.
      rewrite (list_lookup_total_correct _ _ _ Hx). reflexivity.
    + rewrite Hrows, <- app_assoc. reflexivity.
    + rewrite Hpos, length_app. simpl. lia.
Qed.

(** A result set of two pages: the rows of the current page, one fetch that
    brings a last page that is not empty, its rows, and then [io.EOF]. *)
Lemma nexts_two_pages sess r (p1 p2 : list row) (x : row) (cl : bool) :
  bad sess = false →
  rows (rr r) = p1 → pos r = 0 → lastPacket (rr r) = false →
  server sess (length (sent sess)) = mkReply None (x :: p2) true cl false →
  let page2 := mkRowsResult (rsID (rr r)) (x :: p2) true cl in
  let sess' := mkSession (self sess) false (server sess)
                 (sent sess ++ [ReqFetchNext (rsID (rr r))]) in
  nexts (length p1 + (length (x :: p2) + 1)) sess r
  = (sess',
     mkQueryResultSet (s r) (<[idx r := page2]> (rrs r)) page2 (idx r)
       (length (x :: p2)) (lastErr r),
     (delivered (s r) <$> (p1 ++ x :: p2)) ++ [Err EOF]).
Proof.
  intros Hb Hrows Hpos Hl Hrp page2 sess'.
  rewrite nexts_app.
  rewrite (nexts_rows sess r [] p1) by done.
  replace (length (x :: p2) + 1) with (1 + (length p2 + 1)) by (simpl; lia).
  rewrite (nexts_app 1). cbn [nexts].
  rewrite Next_fetch; cbn [rr pos numRow]; [|done|unfold numRow; lia|done].
  cbn zeta. rewrite Hrp. cbn [rp_err rp_rows rp_lastPacket rp_closed].
  unfold copyNext, send, fetched.
  cbn [fst rr pos s rrs idx lastErr]. rewrite Hrp. cbn [rp_bad].
  rewrite Hb. cbn [orb]. fold page2. fold sess'.
  rewrite nexts_app.
  match goal with |- context [nexts (length p2) sess' ?c] =>
    rewrite (nexts_rows sess' c [x] p2) by done end.
  cbn [rr pos s rrs idx lastErr nexts].
  rewrite Next_last by (done || (cbn; lia)).
  rewrite fmap_app. cbn [fmap list_fmap app].
  unfold copyRow, numRow. cbn [rows page2 lookup_total list_lookup_total length].
  rewrite <- !app_assoc. reflexivity.
Qed.

(** Where a call of [Next] hands back a row, the position is within the
    current page. *)
Lemma Next_Row_pos sess r dest :
  (Next sess r).2 = Row dest →
  pos (Next sess r).1.2 ≤ numRow (rr (Next sess r).1.2).
Proof.
  destruct (bad sess) eqn:Hb.
  { rewrite Next_bad by done. discriminate. }
  destruct (decide (numRow (rr r) ≤ pos r)) as [Hge|Hlt].
  - destruct (lastPacket (rr r)) eqn:Hl.
    + rewrite Next_last by done. discriminate.
    + rewrite Next_fetch by done. cbn zeta.
      destruct (rp_err _); [discriminate|].
      destruct (rp_rows _) eqn:Hr; [discriminate|].
      intros _. unfold copyNext, fetched, numRow. simpl. lia.
  - rewrite Next_copy by (done || lia). intros _.
    unfold copyNext. simpl. lia.
Qed.

(** [Next] never reads [lastErr]: the requests it sends and what it hands
    back are those of a cursor without a recorded error. *)
Lemma Next_ignores_lastErr sess r le :
  (Next sess (setLastErr r le)).1.1 = (Next sess r).1.1
  ∧ (Next sess (setLastErr r le)).2 = (Next sess r).2.
Proof.
  unfold Next, setLastErr, copyNext, fetched, fetchNext, send. simpl.
  destruct (IsBad sess); [done|].
  destruct (decide _); [|done].
  destruct (lastPacket (rr r)); [done|].
  destruct (rp_err _); [done|].
  destruct (decide _); done.
Qed.

(** [NextResultSet] leaves [pos] as it is. *)
Lemma NextResultSet_pos r : pos (NextResultSet r).1 = pos r.
Proof. unfold NextResultSet. by destruct (negb (HasNextResultSet r)). Qed.

(** After a result set of two pages is used up, [Close] goes by the closed
    flag of the last page: nothing is sent if the server has flagged the
    result set closed, a release is sent if it has not. *)
Lemma Close_after_two_pages sess r (p1 p2 : list row) (x : row) (cl : bool) :
  bad sess = false →
  rows (rr r) = p1 → pos r = 0 → lastPacket (rr r) = false →
  lastErr r = None →
  server sess (length (sent sess)) = mkReply None (x :: p2) true cl false →
  let '(sess', r', _) := nexts (length p1 + (length (x :: p2) + 1)) sess r in
  Close sess' r'
  = if cl then (sess', None) else CloseResultsetID sess' (rsID (rr r)).
Proof.
  intros Hb Hrows Hpos Hl He Hrp.
  rewrite (nexts_two_pages sess r p1 p2 x cl) by done.
  unfold Close. cbn [lastErr rr closed rsID]. rewrite He.
  by destruct cl.
Qed.

(** ** The result set: the paging protocol *)

(** C2. A cursor made over a first page of three rows that is not the last,
    on a session whose next answer is a page of two rows flagged last packet
    and result set closed: six calls of [Next] hand back the five rows in
    order (large objects bound to the session) and then [io.EOF]; the one
    request sent is a fetch; and [Close] after that returns [nil] and sends
    nothing. *)
Theorem two_page_result_set (a : addr) (id : N) (r1 r2 r3 r4 r5 : row) sess :
  bad sess = false →
  server sess (length (sent sess)) = mkReply None [r4; r5] true true false →
  ∃ r0 sess' r',
    newQueryResultSet a [mkRowsResult id [r1; r2; r3] false false] = Ret r0
    ∧ nexts 6 sess r0
      = (sess', r', (delivered a <$> [r1; r2; r3; r4; r5]) ++ [Err EOF])
    ∧ sent sess' = sent sess ++ [ReqFetchNext id]
    ∧ fetchCalls sess' = fetchCalls sess + 1
    ∧ closeCalls sess' = closeCalls sess
    ∧ Close sess' r' = (sess', None).
Proof.
  intros Hb Hrp.
  set (page1 := mkRowsResult id [r1; r2; r3] false false).
  pose proof (nexts_two_pages sess (mkQueryResultSet a [page1] page1 0 0 None)
                [r1; r2; r3] [r5] r4 true Hb eq_refl eq_refl eq_refl Hrp)
    as Hrun.
  cbn zeta in Hrun. cbn [length Nat.add rr rsID page1 s app] in Hrun.
  eexists _, _, _. split; [reflexivity|].
  split; [exact Hrun|].
  cbn [sent]. split; [reflexivity|].
  unfold fetchCalls, closeCalls. cbn [sent].
  rewrite !filter_app, !length_app. simpl.
  split; [reflexivity|]. split; [lia|]. reflexivity.
Qed.

Lemma two_page_result_set_witness :
  ∃ r0 sess' r',
    newQueryResultSet 1%N [Scenario.firstPage] = Ret r0
    ∧ nexts 6 (Scenario.session Scenario.lastPage) r0
      = (sess', r',
         (delivered 1%N <$> [[VInt 1]; [VInt 2]; [VString "c"]; [VInt 4];
                           [VLob 9%N None]]) ++ [Err EOF])
    ∧ sent sess' = [ReqFetchNext 7%N]
    ∧ fetchCalls sess' = 1
    ∧ closeCalls sess' = 0
    ∧ Close sess' r' = (sess', None).
Proof.
  apply (two_page_result_set 1%N 7%N [VInt 1] [VInt 2] [VString "c"] [VInt 4]
           [VLob 9%N None] (Scenario.session Scenario.lastPage));
    reflexivity.
Defined.

(** C8. On a healthy session, a call of [Next] at a page that is used up and
    is not the last returns, having sent one fetch and nothing else; when
    that fetch succeeds with a page of no rows, the call returns [io.EOF]. *)
Theorem Next_fetches_once sess r :
  bad sess = false → numRow (rr r) ≤ pos r → lastPacket (rr r) = false →
  ∃ sess' r' x,
    Next sess r = (sess', r', x)
    ∧ sent sess' = sent sess ++ [ReqFetchNext (rsID (rr r))]
    ∧ fetchCalls sess' = fetchCalls sess + 1
    ∧ (rp_err (server sess (length (sent sess))) = None →
       rp_rows (server sess (length (sent sess))) = [] →
       x = Err EOF).
Proof.
  intros Hb Hge Hl. rewrite Next_fetch by done. cbn zeta.
  unfold send. cbn [fst].
  destruct (rp_err _) as [e|] eqn:He.
  - eexists _, _, _. split; [reflexivity|]. split; [reflexivity|].
    split; [by rewrite fetchCalls_snoc | discriminate].
  - destruct (rp_rows _) as [|x l] eqn:Hr.
    + eexists _, _, _. split; [reflexivity|]. split; [reflexivity|].
      split; [by rewrite fetchCalls_snoc | done].
    + unfold copyNext. eexists _, _, _. split; [reflexivity|].
      split; [reflexivity|].
      split; [by rewrite fetchCalls_snoc | discriminate].
Qed.

Lemma Next_fetches_once_witness :
  ∃ sess' r' x,
    Next (Scenario.session Scenario.emptyPage)
      (mkQueryResultSet 1%N [Scenario.firstPage] Scenario.firstPage 0 3 None)
    = (sess', r', x)
    ∧ sent sess' = [ReqFetchNext 7%N]
    ∧ fetchCalls sess' = 1
    ∧ (@None error = None → @nil row = [] → x = Err EOF).
Proof.
  apply (Next_fetches_once (Scenario.session Scenario.emptyPage)
           (mkQueryResultSet 1%N [Scenario.firstPage] Scenario.firstPage 0 3
              None)).
  - reflexivity.
  - vm_compute. lia.
  - reflexivity.
Defined.

(** No call of [Next] sends more than one fetch. *)
Lemma Next_at_most_one_fetch sess r :
  fetchCalls (Next sess r).1.1 ≤ fetchCalls sess + 1.
Proof.
  destruct (Next_sent sess r) as [->|(_ & _ & _ & ->)]; [lia|].
  unfold send. cbn [fst]. rewrite fetchCalls_snoc. simpl. lia.
Qed.

(** ** The result set: errors and closing *)

(** C3, as stated, fails: on a session that stays usable, the call of [Next]
    after a failed fetch sends a second fetch and hands back a row, not the
    recorded error; so it is whether the failed fetch has emptied the result
    or has left it as it was. *)
Lemma Next_after_failed_fetch_fetches_again :
  let r0 := mkQueryResultSet 1%N [Scenario.firstPage] Scenario.firstPage 0 3
              None in
  (let '(sess1, r1, x1) := Next (Scenario.session Scenario.flaky) r0 in
   let '(sess2, r2, x2) := Next sess1 r1 in
   x1 = Err Scenario.fetchFailed
   ∧ lastErr r1 = Some Scenario.fetchFailed
   ∧ fetchCalls sess1 = 1
   ∧ x2 = Row [VInt 7]
   ∧ x2 ≠ x1
   ∧ fetchCalls sess2 = 2)
  ∧ (let '(sess1, r1, x1) := Next (Scenario.session Scenario.flakyKeeping) r0 in
     let '(sess2, r2, x2) := Next sess1 r1 in
     x1 = Err Scenario.fetchFailed
     ∧ lastErr r1 = Some Scenario.fetchFailed
     ∧ fetchCalls sess1 = 1
     ∧ x2 = Row [VInt 7]
     ∧ x2 ≠ x1
     ∧ fetchCalls sess2 = 2).
Proof. vm_compute. repeat split; discriminate. Qed.

(** C3, amended. The call of [Next] whose fetch fails returns the error of
    the fetch and records it in [lastErr]; with that record, [Close] returns
    the error and sends nothing. A later call of [Next] on a bad session
    returns [driver.ErrBadConn] and sends nothing; on any session it sends
    what, and hands back what, it would for the same cursor without the
    record. *)
Theorem failed_fetch_is_recorded sess r e :
  bad sess = false → numRow (rr r) ≤ pos r → lastPacket (rr r) = false →
  rp_err (server sess (length (sent sess))) = Some e →
  ∃ sess1 r1,
    Next sess r = (sess1, r1, Err e)
    ∧ lastErr r1 = Some e
    ∧ sent sess1 = sent sess ++ [ReqFetchNext (rsID (rr r))]
    ∧ (∀ sess2, Close sess2 r1 = (sess2, Some e))
    ∧ (∀ sess2, bad sess2 = true → Next sess2 r1 = (sess2, r1, Err ErrBadConn))
    ∧ (∀ sess2,
         (Next sess2 r1).1.1 = (Next sess2 (setLastErr r1 None)).1.1
         ∧ (Next sess2 r1).2 = (Next sess2 (setLastErr r1 None)).2).
Proof.
  intros Hb Hge Hl He. rewrite Next_fetch by done. cbn zeta. rewrite He.
  eexists _, _. split; [reflexivity|]. split; [reflexivity|].
  split; [reflexivity|]. split; [reflexivity|].
  split; [intros sess2 Hb2; by apply Next_bad|].
  intros sess2.
  match goal with |- context [Next sess2 ?c] =>
    destruct (Next_ignores_lastErr sess2 c None) as [H1 H2] end.
  split; symmetry; assumption.
Qed.

Lemma failed_fetch_is_recorded_witness :
  ∃ sess1 r1,
    Next (Scenario.session Scenario.flaky)
      (mkQueryResultSet 1%N [Scenario.firstPage] Scenario.firstPage 0 3 None)
    = (sess1, r1, Err Scenario.fetchFailed)
    ∧ lastErr r1 = Some Scenario.fetchFailed
    ∧ sent sess1 = [ReqFetchNext 7%N]
    ∧ (∀ sess2, Close sess2 r1 = (sess2, Some Scenario.fetchFailed))
    ∧ (∀ sess2, bad sess2 = true → Next sess2 r1 = (sess2, r1, Err ErrBadConn))
    ∧ (∀ sess2,
         (Next sess2 r1).1.1 = (Next sess2 (setLastErr r1 None)).1.1
         ∧ (Next sess2 r1).2 = (Next sess2 (setLastErr r1 None)).2).
Proof.
  apply (failed_fetch_is_recorded (Scenario.session Scenario.flaky)
           (mkQueryResultSet 1%N [Scenario.firstPage] Scenario.firstPage 0 3
              None) Scenario.fetchFailed).
  - reflexivity.
  - vm_compute. lia.
  - reflexivity.
  - reflexivity.
Defined.

(** C4 on the code. A cursor over two complete result sets, of three and of
    two rows: after the three rows of the first, [NextResultSet] succeeds and
    leaves [pos] at 3, above the two rows of the now current result; the next
    call of [Next] returns [io.EOF] and neither row of the second result set
    is handed back. And a fetch that brings an empty page that is not the
    last leaves [pos] at 3 above a page of no rows. *)
Theorem NextResultSet_leaves_pos_beyond_rows :
  (let sess0 := Scenario.session Scenario.silent in
   let r0 := Scenario.cursor [Scenario.resultA; Scenario.resultB] in
   let '(sess1, r1, xs) := nexts 3 sess0 r0 in
   let '(r2, err) := NextResultSet r1 in
   let '(sess3, r3, x) := Next sess1 r2 in
   xs = [Row [VInt 1]; Row [VInt 2]; Row [VInt 3]]
   ∧ pos r1 = numRow (rr r1)
   ∧ err = None ∧ rr r2 = Scenario.resultB
   ∧ pos r2 = 3 ∧ numRow (rr r2) = 2
   ∧ x = Err EOF ∧ sent sess3 = [])
  ∧ (let sess0 := Scenario.session Scenario.emptyPage in
     let r0 := Scenario.cursor [Scenario.firstPage] in
     let '(sess1, r1, xs) := nexts 4 sess0 r0 in
     last xs = Some (Err EOF)
     ∧ sent sess1 = [ReqFetchNext 7%N]
     ∧ pos r1 = 3 ∧ numRow (rr r1) = 0).
Proof. vm_compute. repeat split. Qed.

(** C6, as stated, fails: [Close] keeps no record of having been called. On a
    cursor without a recorded error whose result is not closed, a second
    [Close] sends a second release. *)
Lemma Close_twice_releases_twice :
  let sess0 := Scenario.session Scenario.silent in
  let r := Scenario.cursor [Scenario.firstPage] in
  let '(sess1, e1) := Close sess0 r in
  let '(sess2, e2) := Close sess1 r in
  sent sess1 = [ReqCloseResultset 7%N]
  ∧ sent sess2 = [ReqCloseResultset 7%N; ReqCloseResultset 7%N]
  ∧ closeCalls sess1 = 1 ∧ closeCalls sess2 = 2
  ∧ Close sess1 r ≠ (sess1, e2).
Proof.
  vm_compute. repeat split. intros H.
  apply (f_equal (λ p, length (sent p.1))) in H. discriminate.
Qed.

(** C6, amended. [Close] sends a release exactly when no error is recorded
    and the current result is not flagged closed, and then returns what the
    release returns. With a recorded error it sends nothing and returns that
    error; with a closed result it sends nothing and returns [nil]. It does
    not change the cursor, so in the two cases without a release a second
    [Close] does what the first did. *)
Theorem Close_releases_unless_closed_or_errored sess r :
  (lastErr r = None ∧ closed (rr r) = false
   ∧ Close sess r = CloseResultsetID sess (rsID (rr r))
   ∧ sent (Close sess r).1 = sent sess ++ [ReqCloseResultset (rsID (rr r))]
   ∧ closeCalls (Close sess r).1 = closeCalls sess + 1)
  ∨ ((∃ e, lastErr r = Some e ∧ Close sess r = (sess, Some e))
     ∧ Close (Close sess r).1 r = Close sess r)
  ∨ (lastErr r = None ∧ closed (rr r) = true
     ∧ Close sess r = (sess, None)
     ∧ Close (Close sess r).1 r = Close sess r).
Proof.
  unfold Close.
  destruct (lastErr r) as [e|] eqn:He.
  - right. left. split; [by exists e | reflexivity].
  - destruct (closed (rr r)) eqn:Hc; simpl.
    + right. right. done.
    + left. unfold CloseResultsetID, send. cbn [fst].
      repeat split. by rewrite closeCalls_snoc.
Qed.

(** Where a further result set is there, [NextResultSet] returns [nil],
    makes it the current one and clears [lastErr]; the cursor it leaves is
    the one it leaves for the same cursor with any other recorded error, or
    none; [Close] on it goes by the new result alone, and [Next] on a healthy
    session hands back the row of the new result at [pos] if there is one. *)
Theorem NextResultSet_clears_lastErr r :
  HasNextResultSet r = true →
  ∃ r',
    NextResultSet r = (r', None)
    ∧ lastErr r' = None
    ∧ idx r' = S (idx r)
    ∧ rrs r !! S (idx r) = Some (rr r')
    ∧ (∀ le, NextResultSet (setLastErr r le) = (r', None))
    ∧ (∀ sess,
         Close sess r'
         = if closed (rr r') then (sess, None)
           else CloseResultsetID sess (rsID (rr r')))
    ∧ (∀ sess, bad sess = false → pos r' < numRow (rr r') →
         Next sess r' = copyNext sess r').
Proof.
  intros H. unfold NextResultSet. rewrite H. simpl.
  eexists. split; [reflexivity|]. simpl.
  split; [reflexivity|]. split; [reflexivity|].
  split; [by apply NextResultSet_guarded|].
  split; [|split].
  - intros le. unfold HasNextResultSet, setLastErr in *. simpl. by rewrite H.
  - intros sess. unfold Close. simpl. by destruct (closed _).
  - intros sess Hb Hlt. by apply Next_copy.
Qed.

Lemma NextResultSet_clears_lastErr_witness :
  ∃ r',
    NextResultSet
      (mkQueryResultSet 1%N [Scenario.resultA; Scenario.resultB]
         Scenario.resultA 0 0 (Some Scenario.fetchFailed))
    = (r', None)
    ∧ lastErr r' = None
    ∧ idx r' = 1
    ∧ [Scenario.resultA; Scenario.resultB] !! 1 = Some (rr r')
    ∧ (∀ le,
         NextResultSet
           (setLastErr
              (mkQueryResultSet 1%N [Scenario.resultA; Scenario.resultB]
                 Scenario.resultA 0 0 (Some Scenario.fetchFailed)) le)
         = (r', None))
    ∧ (∀ sess,
         Close sess r'
         = if closed (rr r') then (sess, None)
           else CloseResultsetID sess (rsID (rr r')))
    ∧ (∀ sess, bad sess = false → pos r' < numRow (rr r') →
         Next sess r' = copyNext sess r').
Proof.
  apply (NextResultSet_clears_lastErr
           (mkQueryResultSet 1%N [Scenario.resultA; Scenario.resultB]
              Scenario.resultA 0 0 (Some Scenario.fetchFailed))).
  reflexivity.
Defined.

End CursorFacts.

(** ** Timestamps *)

Section TimestampFacts.

Import Timestamp.

Local Open Scope Z_scope.

Lemma roundTo_multiple (unit n : Z) : (unit | roundTo unit n).
Proof. unfold roundTo. apply Z.divide_factor_r. Qed.

Lemma roundTo_close (unit n : Z) :
  0 < unit → 2 * Z.abs (roundTo unit n - n) ≤ unit.
Proof.
  intros Hu. unfold roundTo.
  pose proof (Z.div_mod (n + unit / 2) unit ltac:(lia)) as Hdm.
  pose proof (Z.mod_pos_bound (n + unit / 2) unit Hu) as Hm.
  pose proof (Z.div_mod unit 2 ltac:(lia)) as Hh.
  pose proof (Z.mod_pos_bound unit 2 ltac:(lia)) as Hh2.
  lia.
Qed.

Lemma truncateTo_below (unit n : Z) : 0 < unit → truncateTo unit n ≤ n.
Proof.
  intros Hu. unfold truncateTo. rewrite Z.mul_comm.
  apply Z.mul_div_le. exact Hu.
Qed.

(** Just below a full second, at a unit of 200ns or more that divides the
    second, rounding reaches the full second. *)
Lemma roundTo_inserted (unit : Z) :
  200 ≤ unit → (unit | nanosPerSecond) →
  roundTo unit (toNanos inserted) = toNanos expected.
Proof.
  intros Hu [d Hd].
  change (toNanos inserted) with 978307199999999900.
  change (toNanos expected) with (978307200 * nanosPerSecond).
  unfold roundTo.
  pose proof (Z.div_mod unit 2 ltac:(lia)) as Hh.
  pose proof (Z.mod_pos_bound unit 2 ltac:(lia)) as Hh2.
  assert ((978307199999999900 + unit / 2) / unit = 978307200 * d) as ->.
  { symmetry. apply Z.div_unique with (r := unit / 2 - 100).
    - left. lia.
    - replace (unit * (978307200 * d)) with (978307200 * (d * unit)) by ring.
      rewrite <- Hd. unfold nanosPerSecond. lia. }
  rewrite Hd. ring.
Qed.

(** C9. Rounding to the unit of the column gives a multiple of the unit that
    is no further than half a unit from the value. A timestamp column whose
    unit is 200ns or more and divides the second stores 2000-12-31
    23:59:59.999999900 as 2001-01-01 00:00:00, which truncation stays
    below. *)
Theorem timestamp_rounds_to_nearest (unit n : Z) :
  0 < unit →
  (unit | roundTo unit n)
  ∧ 2 * Z.abs (roundTo unit n - n) ≤ unit
  ∧ (200 ≤ unit → (unit | nanosPerSecond) →
     encodeTimestamp unit inserted = expected
     ∧ truncateTo unit (toNanos inserted) < toNanos expected).
Proof.
  intros Hu. split; [apply roundTo_multiple|].
  split; [by apply roundTo_close|].
  intros H200 Hdiv. split.
  - unfold encodeTimestamp. rewrite roundTo_inserted by done.
    vm_compute. reflexivity.
  - pose proof (truncateTo_below unit (toNanos inserted) Hu) as Hle.
    assert (toNanos inserted < toNanos expected) by (vm_compute; reflexivity).
    lia.
Qed.

Lemma timestamp_rounds_to_nearest_witness :
  (1000 | roundTo 1000 (toNanos inserted))
  ∧ 2 * Z.abs (roundTo 1000 (toNanos inserted) - toNanos inserted) ≤ 1000
  ∧ encodeTimestamp 1000 inserted = expected
  ∧ truncateTo 1000 (toNanos inserted) < toNanos expected.
Proof.
  destruct (timestamp_rounds_to_nearest 1000 (toNanos inserted) ltac:(lia))
    as (H1 & H2 & H3).
  split; [exact H1|]. split; [exact H2|].
  apply H3.
  - lia.
  - exists 1000000. reflexivity.
Defined.

End TimestampFacts.

(** ** Type codes: the two maps, the predicates and [encTc] together *)

Section TypeCodeTables.

Import TypeCode.

Lemma lowCodes_spec (tc : typeCode) : tc ∈ lowCodes ↔ tc < 128.
Proof.
  unfold lowCodes. rewrite list_elem_of_fmap. split.
  - intros (n & -> & Hn). apply elem_of_seq in Hn. lia.
  - intros Hlt. exists (N.to_nat tc). split; [by rewrite N2Nat.id|].
    apply elem_of_seq. lia.
Qed.

(** A decidable property of type codes holds of every code if it is checked
    on the low codes and shown for the others. *)
Lemma all_codes (Q : typeCode → Prop) `{!∀ tc, Decision (Q tc)} :
  forallb (λ tc, bool_decide (Q tc)) lowCodes = true →
  (∀ tc, 128 ≤ tc → Q tc) → ∀ tc, Q tc.
Proof.
  intros Hlow Hhigh tc. destruct (decide (tc < 128)) as [Hlt|Hge].
  - rewrite forallb_forall in Hlow.
    apply (bool_decide_eq_true_1 (Q tc)), Hlow.
    apply list_elem_of_In, lowCodes_spec, Hlt.
  - apply Hhigh. lia.
Qed.

Lemma tcFieldTypeMap_keys_NoDup : NoDup tcFieldTypeMap_literal.*1.
Proof.
  apply (bool_decide_unpack (NoDup tcFieldTypeMap_literal.*1)).
  vm_compute. exact I.
Qed.

Lemma dataTypeMap_high (tc : typeCode) :
  128 ≤ tc → dataTypeMap !! tc = None.
Proof.
  intros Hge. apply dataTypeMap_lookup_None. intros Hin.
  assert (Forall (λ c, c < 128) registry) as Hall.
  { apply (bool_decide_unpack (Forall (λ c, c < 128) registry)).
    vm_compute. exact I. }
  rewrite Forall_forall in Hall. apply Hall in Hin. lia.
Qed.

Lemma tcFieldTypeMap_high (tc : typeCode) :
  128 ≤ tc → tcFieldTypeMap !! tc = None.
Proof.
  intros Hge. unfold tcFieldTypeMap. apply not_elem_of_list_to_map.
  intros Hin.
  assert (Forall (λ c, c < 128) tcFieldTypeMap_literal.*1) as Hall.
  { apply (bool_decide_unpack (Forall (λ c, c < 128) tcFieldTypeMap_literal.*1)).
    vm_compute. exact I. }
  rewrite Forall_forall in Hall. apply Hall in Hin. lia.
Qed.

Lemma dataType_high (tc : typeCode) :
  128 ≤ tc → dataType tc = Panic (MissingDataType tc).
Proof. intros H. unfold dataType. by rewrite dataTypeMap_high. Qed.

Lemma fieldType_high (tc : typeCode) :
  128 ≤ tc → fieldType tc = MissingFieldType tc.
Proof. intros H. unfold fieldType. by rewrite tcFieldTypeMap_high. Qed.

Lemma eqTc_high (tc c : typeCode) : 128 ≤ tc → c < 128 → eqTc tc c = false.
Proof. intros Hge Hlt. unfold eqTc. apply N.eqb_neq. lia. Qed.

Lemma predicates_high (tc : typeCode) :
  128 ≤ tc →
  isLob tc = false ∧ isCharBased tc = false ∧ isVariableLength tc = false
  ∧ isIntegerType tc = false ∧ isDecimalType tc = false ∧ encTc tc = tc.
Proof.
  intros Hge.
  unfold isLob, isCharBased, isVariableLength, isIntegerType, isDecimalType,
    encTc.
  rewrite !(eqTc_high tc) by (done || reflexivity). done.
Qed.

Ltac by_codes :=
  match goal with
  | |- ∀ tc : typeCode, @?Q tc =>
      apply (all_codes Q); [vm_compute; reflexivity|]
  end.

Ltac high_codes tc H :=
  let H1 := fresh in let H2 := fresh in let H3 := fresh in
  let H4 := fresh in let H5 := fresh in let H6 := fresh in
  destruct (predicates_high tc H) as (H1 & H2 & H3 & H4 & H5 & H6);
  rewrite ?H6, ?H1, ?H2, ?H3, ?H4, ?H5,
    ?(dataType_high tc H), ?(fieldType_high tc H);
  clear H1 H2 H3 H4 H5 H6.

(** X1. [encTc] never changes the field type: a code and its alias have the
    same [fieldType], or both have none. *)
Theorem encTc_keeps_fieldType (tc : typeCode) :
  (fieldType (encTc tc) = fieldType tc)
  ∧ (tc ∈ aliased → fieldType tc = FieldType lobCESU8Type).
Proof.
  revert tc. by_codes.
  intros tc H. high_codes tc H. split; [reflexivity|].
  intros Hin. apply aliased_spec in Hin.
  destruct Hin as [-> | [-> | ->]]; vm_compute in H; by destruct H.
Qed.

(** X2. [encTc] keeps the data type of every code but [tcLocator]: that code
    has a field type and no data type, so [dataType] panics on the code the
    protocol reports and returns [DtLob] on its alias. *)
Theorem encTc_dataType (tc : typeCode) :
  (tc ≠ tcLocator ∧ dataType (encTc tc) = dataType tc)
  ∨ (tc = tcLocator
     ∧ dataType tc = Panic (MissingDataType tc)
     ∧ fieldType tc = FieldType lobCESU8Type
     ∧ dataType (encTc tc) = Ret DtLob).
Proof.
  revert tc. by_codes.
  intros tc H. left. split.
  - intros ->. vm_compute in H. by destruct H.
  - high_codes tc H. reflexivity.
Qed.

(** X3. The keys of the two maps differ in three codes: [fieldType] returns
    exactly for [tcLocator] and for the codes on which [dataType] returns
    other than [tcTableRef] and [tcTableRows]. *)
Theorem fieldType_dataType_domains (tc : typeCode) :
  fieldType tc ≠ MissingFieldType tc
  ↔ tc = tcLocator
    ∨ (dataType tc ≠ Panic (MissingDataType tc)
       ∧ tc ≠ tcTableRef ∧ tc ≠ tcTableRows).
Proof.
  revert tc. by_codes.
  intros tc H. high_codes tc H. split; [done|].
  intros [-> | [Hne _]]; [vm_compute in H; by destruct H | done].
Qed.

(** X4. [isLob] holds exactly of the codes whose field type is one of the two
    large object kinds, and exactly of [tcLocator] and the codes whose data
    type is [DtLob]. *)
Theorem isLob_kinds (tc : typeCode) :
  (isLob tc = true
   ↔ fieldType tc = FieldType lobVarType
     ∨ fieldType tc = FieldType lobCESU8Type)
  ∧ (isLob tc = true ↔ dataType tc = Ret DtLob ∨ tc = tcLocator).
Proof.
  revert tc. by_codes.
  intros tc H. high_codes tc H. split; split; try done.
  - intros [?|?]; done.
  - intros [?| ->]; [done | vm_compute in H; by destruct H].
Qed.


(** X6. [isIntegerType] holds exactly of the codes with one of the four
    integer data types. [isDecimalType] holds of [tcDecimal], the one code
    with data type [DtDecimal], and of [tcSmalldecimal], for which both
    [dataType] and [fieldType] panic. *)
Theorem numeric_predicates_dataType (tc : typeCode) :
  (isIntegerType tc = true
   ↔ dataType tc ∈ [Ret DtTinyint; Ret DtSmallint; Ret DtInteger;
                    Ret DtBigint])
  ∧ (isDecimalType tc = true
     ↔ dataType tc = Ret DtDecimal ∨ tc = tcSmalldecimal)
  ∧ dataType tcSmalldecimal = Panic (MissingDataType tcSmalldecimal)
  ∧ fieldType tcSmalldecimal = MissingFieldType tcSmalldecimal.
Proof.
  revert tc. by_codes.
  intros tc H. high_codes tc H. split; [|split; [|done]].
  - split; [done|]. rewrite !elem_of_cons, elem_of_nil.
    intros [?|[?|[?|[?|[]]]]]; done.
  - split; [done|].
    intros [?| ->]; [done | vm_compute in H; by destruct H].
Qed.


(** X8. No code is in two of the classes large object, variable length,
    integer and decimal. *)
Theorem type_classes_disjoint (tc : typeCode) :
  isLob tc && isVariableLength tc = false
  ∧ isLob tc && isIntegerType tc = false
  ∧ isLob tc && isDecimalType tc = false
  ∧ isVariableLength tc && isIntegerType tc = false
  ∧ isVariableLength tc && isDecimalType tc = false
  ∧ isIntegerType tc && isDecimalType tc = false.
Proof.
  revert tc. by_codes.
  intros tc H. high_codes tc H. done.
Qed.

(** X9. A code on which [fieldType] or [dataType] returns has the high bit
    clear, and so has its alias: the null value indicator stays free. *)
Theorem typed_codes_leave_null_bit (tc : typeCode) :
  fieldType tc ≠ MissingFieldType tc
  ∨ dataType tc ≠ Panic (MissingDataType tc) →
  nullIndicator tc = false ∧ nullIndicator (encTc tc) = false.
Proof.
  revert tc. by_codes.
  intros tc H. high_codes tc H. intros [?|?]; done.
Qed.

Lemma typed_codes_leave_null_bit_witness :
  nullIndicator tcText = false ∧ nullIndicator (encTc tcText) = false.
Proof.
  apply (typed_codes_leave_null_bit tcText). left. discriminate.
Defined.

End TypeCodeTables.

(** ** The result set: what every call keeps *)

Section CursorInvariants.

Implicit Types (sess : Session) (r : queryResultSet).

Local Open Scope nat_scope.

Lemma Next_cases sess r :
  Next sess r = (sess, r, Err ErrBadConn)
  ∨ Next sess r = (sess, r, Err EOF)
  ∨ Next sess r = copyNext sess r
  ∨ (bad sess = false ∧ numRow (rr r) ≤ pos r ∧ lastPacket (rr r) = false
     ∧ ∃ rp, rp = server sess (length (sent sess))
       ∧ let sess' := (send sess (ReqFetchNext (rsID (rr r)))).1 in
         let r' := fetched r (mkRowsResult (rsID (rr r)) (rp_rows rp)
                                (rp_lastPacket rp) (rp_closed rp)) in
         (∃ e, rp_err rp = Some e ∧ Next sess r = (sess', setLastErr r' (Some e), Err e))
         ∨ (rp_err rp = None ∧ rp_rows rp = [] ∧ Next sess r = (sess', r', Err EOF))
         ∨ (rp_err rp = None ∧ rp_rows rp ≠ []
            ∧ Next sess r
              = copyNext sess'
                  (mkQueryResultSet (s r') (rrs r') (rr r') (idx r') 0
                     (lastErr r')))).
Proof.
  destruct (bad sess) eqn:Hb.
  { left. by apply Next_bad. }
  destruct (decide (numRow (rr r) ≤ pos r)) as [Hge|Hlt].
  - destruct (lastPacket (rr r)) eqn:Hl.
    + right. left. by apply Next_last.
    + right. right. right. split; [done|]. split; [done|]. split; [done|].
      eexists. split; [reflexivity|]. rewrite Next_fetch by done. cbn zeta.
      destruct (rp_err _) as [e|] eqn:He.
      * left. exists e. done.
      * right. destruct (rp_rows _) eqn:Hr; [left; done | right; done].
  - right. right. left. apply Next_copy; [done | lia].
Qed.

Lemma current_fetched r res :
  current r → current (fetched r res).
Proof.
  unfold current, fetched. cbn [rrs idx rr]. intros Hc.
  apply list_lookup_insert_eq. by apply lookup_lt_Some in Hc.
Qed.

(** X10. The current result is the one at [idx] in [rrs]: the constructor
    makes it so, and [Next] and [NextResultSet] keep it so. *)
Theorem current_result_kept :
  (∀ a results r, newQueryResultSet a results = Ret r → current r)
  ∧ (∀ sess r, current r → current (Next sess r).1.2)
  ∧ (∀ r, current r → current (NextResultSet r).1).
Proof.
  split; [|split].
  - intros a [|rr0 results] r H; [discriminate|].
    injection H as <-. reflexivity.
  - intros sess r Hc.
    destruct (Next_cases sess r)
      as [-> | [-> | [-> | (_ & _ & _ & rp & _ & [(e & _ & ->) | [(_ & _ & ->) | (_ & _ & ->)]])]]];
      try exact Hc.
    + apply (current_fetched r). exact Hc.
    + apply (current_fetched r). exact Hc.
    + apply (current_fetched r). exact Hc.
  - intros r Hc. unfold NextResultSet.
    destruct (HasNextResultSet r) eqn:Hn; [|exact Hc]. cbn [negb fst].
    unfold current. cbn [rrs idx rr].
    by apply NextResultSet_guarded.
Qed.

(** X11. A call of [Next] keeps the session pointer, the index of the
    current result set, its identifier, and every other result set of the
    cursor; it never sends a release, and leaves the server and the identity
    of the session as they were. *)
Theorem Next_frame sess r :
  s (Next sess r).1.2 = s r
  ∧ idx (Next sess r).1.2 = idx r
  ∧ rsID (rr (Next sess r).1.2) = rsID (rr r)
  ∧ length (rrs (Next sess r).1.2) = length (rrs r)
  ∧ (∀ j, j ≠ idx r → rrs (Next sess r).1.2 !! j = rrs r !! j)
  ∧ closeCalls (Next sess r).1.1 = closeCalls sess
  ∧ self (Next sess r).1.1 = self sess
  ∧ server (Next sess r).1.1 = server sess.
Proof.
  assert (∀ res,
    s (fetched r res) = s r ∧ idx (fetched r res) = idx r
    ∧ length (rrs (fetched r res)) = length (rrs r)
    ∧ ∀ j, j ≠ idx r → rrs (fetched r res) !! j = rrs r !! j) as Hf.
  { intros res. unfold fetched. cbn [s idx rrs].
    split; [done|]. split; [done|]. split; [apply length_insert|].
    intros j Hj. by apply list_lookup_insert_ne. }
  assert (closeCalls (send sess (ReqFetchNext (rsID (rr r)))).1
          = closeCalls sess) as Hs.
  { unfold send. cbn [fst]. rewrite closeCalls_snoc. simpl. lia. }
  destruct (Next_cases sess r)
    as [-> | [-> | [-> | (_ & _ & _ & rp & _ & [(e & _ & ->) | [(_ & _ & ->) | (_ & _ & ->)]])]]];
    unfold copyNext, setLastErr; cbn [fst snd s idx rr rrs rsID];
    try (repeat split; done);
    destruct (Hf (mkRowsResult (rsID (rr r)) (rp_rows rp) (rp_lastPacket rp)
                    (rp_closed rp))) as (H1 & H2 & H3 & H4);
    repeat split; done.
Qed.

(** X12. [NextResultSet] only moves forward: on a new cursor over [n]
    results, the first [n - 1] calls return [nil] and make the results
    current one after the other, and every later call returns [io.EOF] and
    stays on the last result. *)
Theorem nextResultSets_forward (a : addr) (results : list rowsResult) r k :
  newQueryResultSet a results = Ret r →
  (nextResultSets k r).2
  = replicate (k `min` (length results - 1)) None
    ++ replicate (k - (length results - 1)) (Some EOF)
  ∧ idx (nextResultSets k r).1 = k `min` (length results - 1)
  ∧ results !! (k `min` (length results - 1))
    = Some (rr (nextResultSets k r).1)
  ∧ rrs (nextResultSets k r).1 = results.
Proof.
  intros Hnew.
  assert (current r ∧ rrs r = results ∧ idx r = 0) as (Hc & Hrrs & Hidx).
  { destruct results as [|rr0 results]; [discriminate|].
    injection Hnew as <-. done. }
  clear Hnew. subst results.
  assert (∀ k r, current r →
    (nextResultSets k r).2
    = replicate (k `min` (length (rrs r) - 1 - idx r)) None
      ++ replicate (k - (length (rrs r) - 1 - idx r)) (Some EOF)
    ∧ idx (nextResultSets k r).1 = idx r + k `min` (length (rrs r) - 1 - idx r)
    ∧ rrs r !! (idx r + k `min` (length (rrs r) - 1 - idx r))
      = Some (rr (nextResultSets k r).1)
    ∧ rrs (nextResultSets k r).1 = rrs r) as Hgen.
  { clear. intros k. induction k as [|k IH]; intros r Hc.
    - cbn [nextResultSets fst snd]. rewrite Nat.min_0_l, Nat.add_0_r.
      done.
    - cbn [nextResultSets]. unfold NextResultSet.
      destruct (HasNextResultSet r) eqn:Hn; cbn [negb].
      + pose proof Hn as Hlt. unfold HasNextResultSet in Hlt.
        apply bool_decide_eq_true in Hlt.
        set (r1 := mkQueryResultSet (s r) (rrs r) (rrs r !!! S (idx r))
                     (S (idx r)) (pos r) None).
        assert (current r1) as Hc1.
        { unfold current, r1. cbn [rrs idx rr].
          by apply NextResultSet_guarded. }
        destruct (IH r1 Hc1) as (H1 & H2 & H3 & H4).
        destruct (nextResultSets k r1) as [r2 es].
        cbn [fst snd rrs idx r1] in *.
        replace (S k `min` (length (rrs r) - 1 - idx r))
          with (S (k `min` (length (rrs r) - 1 - S (idx r)))) by lia.
        replace (S k - (length (rrs r) - 1 - idx r))
          with (k - (length (rrs r) - 1 - S (idx r))) by lia.
        cbn [replicate app]. rewrite H1.
        split; [done|]. split; [lia|]. split; [|done].
        rewrite <- H3. f_equal. lia.
      + pose proof Hn as Hge. unfold HasNextResultSet in Hge.
        apply bool_decide_eq_false in Hge.
        destruct (IH r Hc) as (H1 & H2 & H3 & H4).
        destruct (nextResultSets k r) as [r2 es].
        cbn [fst snd] in *.
        replace (length (rrs r) - 1 - idx r) with 0 in * by lia.
        rewrite Nat.min_0_r, Nat.sub_0_r in *.
        cbn [replicate app] in *. rewrite H1.
        done. }
  destruct (Hgen k r Hc) as (H1 & H2 & H3 & H4).
  rewrite Hidx, Nat.sub_0_r, Nat.add_0_l in *. done.
Qed.

Lemma nextResultSets_forward_witness :
  (nextResultSets 3
     (mkQueryResultSet 1%N [Scenario.resultA; Scenario.resultB]
        Scenario.resultA 0 0 None)).2
  = replicate (3 `min` (2 - 1)) None ++ replicate (3 - (2 - 1)) (Some EOF)
  ∧ idx (nextResultSets 3
           (mkQueryResultSet 1%N [Scenario.resultA; Scenario.resultB]
              Scenario.resultA 0 0 None)).1
    = 3 `min` (2 - 1)
  ∧ [Scenario.resultA; Scenario.resultB] !! (3 `min` (2 - 1))
    = Some (rr (nextResultSets 3
                  (mkQueryResultSet 1%N [Scenario.resultA; Scenario.resultB]
                     Scenario.resultA 0 0 None)).1)
  ∧ rrs (nextResultSets 3
           (mkQueryResultSet 1%N [Scenario.resultA; Scenario.resultB]
              Scenario.resultA 0 0 None)).1
    = [Scenario.resultA; Scenario.resultB].
Proof.
  apply (nextResultSets_forward 1%N [Scenario.resultA; Scenario.resultB]).
  reflexivity.
Defined.

(** ** The result set: whole iterations *)

Lemma nexts_replicate sess r x n :
  Next sess r = (sess, r, x) → nexts n sess r = (sess, r, replicate n x).
Proof.
  intros H. induction n as [|n IH]; [reflexivity|].
  cbn [nexts replicate]. rewrite H, IH. reflexivity.
Qed.

(** X13. Once the last page is used up, every call of [Next] on a healthy
    session returns [io.EOF], sends nothing and changes nothing. *)
Theorem nexts_exhausted sess r n :
  bad sess = false → numRow (rr r) ≤ pos r → lastPacket (rr r) = true →
  nexts n sess r = (sess, r, replicate n (Err EOF)).
Proof.
  intros Hb Hge Hl. apply nexts_replicate. by apply Next_last.
Qed.

Lemma nexts_exhausted_witness :
  nexts 4 (Scenario.session Scenario.silent)
    (mkQueryResultSet 1%N [Scenario.resultA] Scenario.resultA 0 3 None)
  = (Scenario.session Scenario.silent,
     mkQueryResultSet 1%N [Scenario.resultA] Scenario.resultA 0 3 None,
     replicate 4 (Err EOF)).
Proof.
  apply (nexts_exhausted (Scenario.session Scenario.silent)
           (mkQueryResultSet 1%N [Scenario.resultA] Scenario.resultA 0 3 None)
           4).
  - reflexivity.
  - vm_compute. lia.
  - reflexivity.
Defined.

(** X14. On a session marked bad, every call of [Next] returns
    [driver.ErrBadConn], whatever rows the current page still holds; it
    sends nothing and changes nothing. *)
Theorem nexts_bad_session sess r n :
  bad sess = true →
  nexts n sess r = (sess, r, replicate n (Err ErrBadConn)).
Proof.
  intros Hb. apply nexts_replicate. by apply Next_bad.
Qed.

Lemma nexts_bad_session_witness :
  nexts 2 (mkSession 1%N true Scenario.silent [])
    (mkQueryResultSet 1%N [Scenario.resultA] Scenario.resultA 0 0 None)
  = (mkSession 1%N true Scenario.silent [],
     mkQueryResultSet 1%N [Scenario.resultA] Scenario.resultA 0 0 None,
     replicate 2 (Err ErrBadConn)).
Proof.
  apply (nexts_bad_session (mkSession 1%N true Scenario.silent [])
           (mkQueryResultSet 1%N [Scenario.resultA] Scenario.resultA 0 0 None)
           2).
  reflexivity.
Defined.

(** X15. When a fetch succeeds with an empty page that is not the last,
    [Next] returns [io.EOF] although the result set is not finished: the
    cursor is left at a used-up page that is not the last, and the next call
    of [Next] sends a further fetch. *)
Theorem Next_empty_page_is_EOF sess r :
  bad sess = false → numRow (rr r) ≤ pos r → lastPacket (rr r) = false →
  rp_err (server sess (length (sent sess))) = None →
  rp_rows (server sess (length (sent sess))) = [] →
  rp_lastPacket (server sess (length (sent sess))) = false →
  rp_bad (server sess (length (sent sess))) = false →
  (Next sess r).2 = Err EOF
  ∧ bad (Next sess r).1.1 = false
  ∧ numRow (rr (Next sess r).1.2) ≤ pos (Next sess r).1.2
  ∧ lastPacket (rr (Next sess r).1.2) = false
  ∧ sent (Next (Next sess r).1.1 (Next sess r).1.2).1.1
    = sent sess ++ [ReqFetchNext (rsID (rr r)); ReqFetchNext (rsID (rr r))].
Proof.
  intros Hb Hge Hl Herr Hrows Hlp Hbad.
  assert (server sess (length (sent sess))
          = mkReply None [] false
              (rp_closed (server sess (length (sent sess)))) false) as Hrp.
  { destruct (server sess (length (sent sess))). cbn in *. congruence. }
  assert (Next sess r
          = ((send sess (ReqFetchNext (rsID (rr r)))).1,
             fetched r (mkRowsResult (rsID (rr r)) [] false
                          (rp_closed (server sess (length (sent sess))))),
             Err EOF)) as HN.
  { rewrite Next_fetch by done. cbn zeta. rewrite Hrp. reflexivity. }
  rewrite HN. cbn [fst snd]. unfold send. cbn [fst].
  rewrite Hrp. cbn [rp_bad]. rewrite Hb.
  unfold fetched, numRow. cbn [rr rows pos lastPacket length orb].
  split; [done|]. split; [done|]. split; [lia|]. split; [done|].
  rewrite Next_fetch; cbn [bad rr pos numRow rows lastPacket length];
    [|done|lia|done].
  cbn zeta. unfold send. cbn [fst sent rsID server].
  set (rp2 := server sess (length (sent sess ++ [ReqFetchNext (rsID (rr r))]))).
  destruct (rp_err rp2); [|destruct (rp_rows rp2)];
    unfold copyNext; cbn [fst snd sent]; by rewrite <- app_assoc.
Qed.

Lemma Next_empty_page_is_EOF_witness :
  let sess := Scenario.session Scenario.emptyPage in
  let r := mkQueryResultSet 1%N [Scenario.firstPage] Scenario.firstPage 0 3
             None in
  (Next sess r).2 = Err EOF
  ∧ bad (Next sess r).1.1 = false
  ∧ numRow (rr (Next sess r).1.2) ≤ pos (Next sess r).1.2
  ∧ lastPacket (rr (Next sess r).1.2) = false
  ∧ sent (Next (Next sess r).1.1 (Next sess r).1.2).1.1
    = sent sess ++ [ReqFetchNext (rsID (rr r)); ReqFetchNext (rsID (rr r))].
Proof.
  apply (Next_empty_page_is_EOF (Scenario.session Scenario.emptyPage)
           (mkQueryResultSet 1%N [Scenario.firstPage] Scenario.firstPage 0 3
              None)).
  - reflexivity.
  - vm_compute. lia.
  - reflexivity.
  - reflexivity.
  - reflexivity.
  - reflexivity.
  - reflexivity.
Defined.

(** X16. [Next] writes [lastErr] only when its fetch fails. So an error
    recorded by one failed fetch stays recorded while later calls hand back
    rows, and [Close] then still returns that error and sends no release. *)
Theorem recorded_error_outlives_rows sess r e dest :
  lastErr r = Some e → (Next sess r).2 = Row dest →
  lastErr (Next sess r).1.2 = Some e
  ∧ ∀ sess2, Close sess2 (Next sess r).1.2 = (sess2, Some e).
Proof.
  intros He Hrow.
  assert (lastErr (Next sess r).1.2 = Some e) as Hkept.
  { destruct (Next_cases sess r)
      as [H | [H | [H | (_ & _ & _ & rp & _ & [(e' & _ & H) | [(_ & _ & H) | (_ & _ & H)]])]]];
      rewrite H in Hrow |- *; try discriminate Hrow; exact He. }
  split; [exact Hkept|]. intros sess2. unfold Close. by rewrite Hkept.
Qed.

Lemma recorded_error_outlives_rows_witness :
  let sess := mkSession 1%N false Scenario.flaky [ReqFetchNext 7%N] in
  let r := mkQueryResultSet 1%N [Scenario.firstPage]
             (mkRowsResult 7 [] false false) 0 3
             (Some Scenario.fetchFailed) in
  lastErr (Next sess r).1.2 = Some Scenario.fetchFailed
  ∧ ∀ sess2, Close sess2 (Next sess r).1.2
             = (sess2, Some Scenario.fetchFailed).
Proof.
  apply (recorded_error_outlives_rows
           (mkSession 1%N false Scenario.flaky [ReqFetchNext 7%N])
           (mkQueryResultSet 1%N [Scenario.firstPage]
              (mkRowsResult 7 [] false false) 0 3
              (Some Scenario.fetchFailed))
           Scenario.fetchFailed [VInt 7]).
  - reflexivity.
  - reflexivity.
Defined.

Lemma serves_tail sess (page : list row) (pages : list (list row)) q b :
  serves sess (page :: pages) →
  serves (mkSession (self sess) b (server sess) (sent sess ++ [q])) pages.
Proof.
  intros Hs i pg Hi. destruct (Hs (S i) pg Hi) as (H1 & H2 & H3 & H4 & H5).
  cbn [server sent]. rewrite length_app. cbn [length].
  replace (length (sent sess) + 1 + i) with (length (sent sess) + S i) by lia.
  split; [done|]. split; [done|]. split; [done|]. split; [|done].
  rewrite H4. cbn [length]. apply bool_decide_ext. lia.
Qed.

Lemma serves_pagesServer (a : addr) (pages : list (list row)) :
  Forall (λ page, page ≠ []) pages →
  serves (mkSession a false (pagesServer pages) []) pages.
Proof.
  intros Hall i page Hi. cbn [sent server length Nat.add]. unfold pagesServer.
  cbn [rp_err rp_rows rp_lastPacket rp_bad].
  rewrite (list_lookup_total_correct _ _ _ Hi).
  rewrite Forall_forall in Hall.
  split; [|done]. apply Hall. by apply list_elem_of_lookup_2 in Hi.
Qed.

(** X17. On a healthy session whose server delivers the remaining pages of
    the result set, none of them empty, successive calls of [Next] hand back
    the rows left in the current page and then the rows of every page, in
    order, and then [io.EOF]; the requests sent are one fetch per page. *)
Theorem Next_iterates_all_pages (pages : list (list row)) :
  ∀ sess r (pre rest : list row),
    bad sess = false →
    rows (rr r) = pre ++ rest → pos r = length pre →
    lastPacket (rr r) = bool_decide (pages = []) →
    serves sess pages →
    ∃ sess' r',
      nexts (length rest + (length (concat pages) + 1)) sess r
      = (sess', r', (delivered (s r) <$> (rest ++ concat pages)) ++ [Err EOF])
      ∧ sent sess'
        = sent sess ++ replicate (length pages) (ReqFetchNext (rsID (rr r)))
      ∧ bad sess' = false
      ∧ lastPacket (rr r') = true
      ∧ pos r' = numRow (rr r')
      ∧ last ((pre ++ rest) :: pages) = Some (rows (rr r')).
Proof.
  induction pages as [|page pages IH]; intros sess r pre rest Hb Hrows Hpos Hl Hs.
  - cbn [concat length Nat.add].
    rewrite nexts_app, (nexts_rows sess r pre rest) by done.
    cbn [nexts]. rewrite Next_last; cbn [rr pos]; [|done|lia|done].
    eexists _, _. split; [by rewrite app_nil_r|].
    cbn [rr pos replicate]. rewrite app_nil_r.
    split; [done|]. split; [done|]. split; [done|]. split; [done|].
    by rewrite Hrows.
  - destruct (Hs 0 page eq_refl) as (Hne & Herr & Hrw & Hlp & Hbd).
    rewrite Nat.add_0_r in Herr, Hrw, Hlp, Hbd.
    destruct page as [|x page]; [done|]. clear Hne.
    rewrite bool_decide_eq_false_2 in Hl by done.
    cbn [concat]. rewrite length_app. cbn [length].
    replace (length rest + (S (length page) + length (concat pages) + 1))
      with (length rest + (1 + (length page + (length (concat pages) + 1))))
      by lia.
    rewrite nexts_app, (nexts_rows sess r pre rest) by done.
    rewrite (nexts_app 1). cbn [nexts].
    rewrite Next_fetch; cbn [rr pos]; [|done|lia|done].
    cbn zeta. rewrite Herr, Hrw.
    unfold copyNext, send, fetched. cbn [fst rr pos s rrs idx lastErr].
    rewrite Hbd, Hb. cbn [orb].
    set (page1 := mkRowsResult (rsID (rr r)) (x :: page)
                    (rp_lastPacket (server sess (length (sent sess))))
                    (rp_closed (server sess (length (sent sess))))).
    set (sess1 := mkSession (self sess) false (server sess)
                    (sent sess ++ [ReqFetchNext (rsID (rr r))])).
    set (r1 := mkQueryResultSet (s r) (<[idx r := page1]> (rrs r)) page1
                 (idx r) 1 (lastErr r)).
    destruct (IH sess1 r1 [x] page) as (sess' & r' & Hrun & Hsent & Hb' & Hl' & Hp' & Hlast).
    + reflexivity.
    + reflexivity.
    + reflexivity.
    + cbn [r1 rr page1 lastPacket]. rewrite Hlp. cbn [length].
      apply bool_decide_ext. destruct pages; simpl; split; (done || lia).
    + by apply (serves_tail sess (x :: page)).
    + rewrite Hrun. exists sess', r'.
      split.
      { cbn [r1 s]. unfold copyRow. cbn [page1 rows].
        rewrite !fmap_app. cbn [fmap list_fmap lookup_total list_lookup_total].
        rewrite <- !app_assoc. reflexivity. }
      split.
      { rewrite Hsent. cbn [sess1 sent r1 rr page1 rsID length replicate].
        rewrite <- app_assoc. reflexivity. }
      split; [done|]. split; [done|]. split; [done|].
      rewrite <- Hlast. cbn [app]. apply last_cons_cons.
Qed.

Lemma Next_iterates_all_pages_witness :
  let pages := [[[VInt 4]]; [[VInt 5]; [VLob 9%N None]]; [[VString "z"]]] in
  let sess := mkSession 1%N false (pagesServer pages) [] in
  let r := mkQueryResultSet 1%N [Scenario.firstPage] Scenario.firstPage 0 1
             None in
  ∃ sess' r',
    nexts (length [[VInt 2]; [VString "c"]] + (length (concat pages) + 1))
      sess r
    = (sess', r',
       (delivered 1%N <$> ([[VInt 2]; [VString "c"]] ++ concat pages))
       ++ [Err EOF])
    ∧ sent sess' = [] ++ replicate (length pages) (ReqFetchNext 7%N)
    ∧ bad sess' = false
    ∧ lastPacket (rr r') = true
    ∧ pos r' = numRow (rr r')
    ∧ last (([[VInt 1]] ++ [[VInt 2]; [VString "c"]]) :: pages)
      = Some (rows (rr r')).
Proof.
  apply (Next_iterates_all_pages
           [[[VInt 4]]; [[VInt 5]; [VLob 9%N None]]; [[VString "z"]]]
           (mkSession 1%N false
              (pagesServer
                 [[[VInt 4]]; [[VInt 5]; [VLob 9%N None]]; [[VString "z"]]])
              [])
           (mkQueryResultSet 1%N [Scenario.firstPage] Scenario.firstPage 0 1
              None)
           [[VInt 1]] [[VInt 2]; [VString "c"]]).
  - reflexivity.
  - reflexivity.
  - reflexivity.
  - reflexivity.
  - apply serves_pagesServer. repeat constructor; discriminate.
Defined.

End CursorInvariants.

(** ** The result set cache: how its operations compose *)

Section CacheComposition.

Implicit Types (c : gmap N queryResultSet) (a b : addr) (id : N).

(** X18. [cleanup] for a session done twice is [cleanup] done once, and
    [cleanup] for two sessions gives the same cache in either order. *)
Theorem cleanup_idempotent_commutes c a b :
  cleanup (cleanup c a) a = cleanup c a
  ∧ cleanup (cleanup c a) b = cleanup (cleanup c b) a.
Proof.
  split; apply map_eq; intros id; rewrite !cleanup_lookup.
  - destruct (c !! id) as [q|]; [|done].
    destruct (decide (s q = a)) as [?|Hne]; [done|]. by rewrite decide_False.
  - destruct (c !! id) as [q|]; [|done].
    destruct (decide (s q = a)), (decide (s q = b)); try done.
    + by rewrite decide_True.
    + by rewrite decide_False.
Qed.

(** X19. [cleanup] keeps exactly the entries of other sessions: it is the
    cache filtered by owner, it never has more entries than before, and it
    leaves the cache as it is exactly when the session owns no entry. *)
Theorem cleanup_filters_by_owner c a :
  cleanup c a = filter (λ e, s e.2 ≠ a) c
  ∧ (size (cleanup c a) ≤ size c)%nat
  ∧ (cleanup c a = c ↔ ∀ id q, c !! id = Some q → s q ≠ a).
Proof.
  assert (cleanup c a = filter (λ e, s e.2 ≠ a) c) as Hf.
  { apply map_eq. intros id. rewrite cleanup_lookup.
    destruct (c !! id) as [q|] eqn:E.
    - destruct (decide (s q = a)) as [Hs|Hs].
      + symmetry. apply map_lookup_filter_None. right.
        intros q' Hq'. simpl. congruence.
      + symmetry. apply map_lookup_filter_Some. done.
    - symmetry. apply map_lookup_filter_None. by left. }
  split; [exact Hf|]. split.
  - rewrite Hf. apply map_subseteq_size, map_filter_subseteq.
  - split.
    + intros Heq id q Hq Hs.
      pose proof (cleanup_lookup c a id) as Hl.
      rewrite Heq, Hq, decide_True in Hl by done. discriminate.
    + intros Hall. apply map_eq. intros id. rewrite cleanup_lookup.
      destruct (c !! id) as [q|] eqn:E; [|done].
      rewrite decide_False; [done|]. by apply (Hall id).
Qed.

(** X20. A new cache has no entry. Registering under an id replaces what
    was registered under it, and leaves every other id as it was. *)
Theorem set_replaces c id id' (q1 q2 : queryResultSet) :
  Get newQueryResultSetCache id = (None, false)
  ∧ (set (set c id q1).1 id q2).1 = (set c id q2).1
  ∧ Get (set (set c id q1).1 id q2).1 id = (Some q2, true)
  ∧ (id ≠ id' → Get (set c id q1).1 id' = Get c id').
Proof.
  unfold Get, set, newQueryResultSetCache. cbn [fst].
  split; [by rewrite lookup_empty|].
  split; [by rewrite insert_insert_eq|].
  split; [by rewrite lookup_insert_eq|].
  intros Hne. by rewrite lookup_insert_ne.
Qed.

End CacheComposition.

(** ** Helpers of the data type tests *)

Section DataTypeTestFacts.

Import Timestamp DataTypeTest.

Lemma onlySpaces_cons (b : Byte.byte) (str : list Byte.byte) :
  onlySpaces (b :: str) = true ↔ b = space ∧ onlySpaces str = true.
Proof.
  cbn [onlySpaces]. split.
  - destruct (Byte.to_N b <? RuneSelf)%N; [|discriminate].
    destruct (Byte.eqb b space) eqn:E; [|discriminate].
    intros H. split; [by apply Byte.byte_dec_bl | exact H].
  - intros [-> H]. exact H.
Qed.

Lemma onlySpaces_spec (str : list Byte.byte) :
  onlySpaces str = true ↔ str = replicate (length str) space.
Proof.
  induction str as [|b str IH]; [done|].
  rewrite onlySpaces_cons, IH. cbn [length replicate]. split.
  - intros [-> <-]. reflexivity.
  - intros H. injection H as -> H. done.
Qed.

(** X21. [compareStringFixSize] panics exactly when [out] is shorter than
    [in]; otherwise it returns [true] exactly when [out] is [in] followed by
    spaces only. *)
Theorem compareStringFixSize_padding (input out : list Byte.byte) :
  (compareStringFixSize input out = None ↔ (length out < length input)%nat)
  ∧ (compareStringFixSize input out = Some true
     ↔ ∃ n, out = input ++ replicate n space).
Proof.
  unfold compareStringFixSize.
  destruct (decide (length input ≤ length out)%nat) as [Hle|Hgt].
  - split; [split; [by destruct (bool_decide _) | lia]|].
    destruct (bool_decide_reflect (input ≠ take (length input) out))
      as [Hne|Heq].
    + split; [discriminate|]. intros (n & ->). exfalso. apply Hne.
      by rewrite take_app_length.
    + apply dec_stable in Heq. split.
      * intros H. injection H as H. apply onlySpaces_spec in H.
        exists (length (drop (length input) out)).
        rewrite <- H. rewrite Heq at 1. by rewrite take_drop.
      * intros (n & ->). f_equal. rewrite drop_app_length.
        apply onlySpaces_spec. by rewrite length_replicate.
  - split; [split; [lia | done]|].
    split; [discriminate|]. intros (n & ->). rewrite length_app in Hgt. lia.
Qed.

Lemma equalMillisecond_of_ticks (n1 n2 : Z) :
  (n1 ÷ 100 = n2 ÷ 100 → n1 ÷ 1000000 * 1000000 = n2 ÷ 1000000 * 1000000)%Z.
Proof.
  intros H.
  change 1000000%Z with (100 * 10000)%Z at 1 3.
  rewrite <- !Z.quot_quot by lia. by rewrite H.
Qed.

(** X22. Of the two comparisons of timestamps, the one of the baseline tests
    is the weaker: two times that [equalLongdate] accepts are accepted by
    [equalTimestamp], and there are times that only [equalTimestamp]
    accepts. *)
Theorem equalLongdate_stricter (t1 t2 : civil) :
  equalLongdate t1 t2 = true →
  equalTimestamp t1 t2 = true
  ∧ equalTimestamp inserted (mkCivil 2000 12 31 23 59 59 999000000) = true
  ∧ equalLongdate inserted (mkCivil 2000 12 31 23 59 59 999000000) = false.
Proof.
  unfold equalLongdate, equalTimestamp, equalMillisecond.
  intros H. apply andb_true_iff in H. destruct H as [H Hn].
  split; [|split; reflexivity].
  rewrite H. cbn [andb]. apply Z.eqb_eq in Hn. apply Z.eqb_eq.
  by apply equalMillisecond_of_ticks.
Qed.

Lemma equalLongdate_stricter_witness :
  equalTimestamp inserted (mkCivil 2000 12 31 23 59 59 999999999) = true
  ∧ equalTimestamp inserted (mkCivil 2000 12 31 23 59 59 999000000) = true
  ∧ equalLongdate inserted (mkCivil 2000 12 31 23 59 59 999000000) = false.
Proof.
  apply (equalLongdate_stricter inserted
           (mkCivil 2000 12 31 23 59 59 999999999)).
  reflexivity.
Defined.

Lemma isASCII_spec (bytes : list Byte.byte) :
  isASCII bytes = true ↔ Forall (λ b, (Byte.to_N b < RuneSelf)%N) bytes.
Proof.
  induction bytes as [|b bytes IH]; [by split|].
  cbn [isASCII]. rewrite Forall_cons, <- IH.
  destruct (N.leb_spec RuneSelf (Byte.to_N b)) as [Hle|Hlt].
  - split; [discriminate | intros [? _]; lia].
  - tauto.
Qed.

Lemma lobTestData_loop_spec (ascii : bool) (files : list testLobFile)
  (first : bool) (testData : list lobValue) :
  lobTestData_loop ascii files first testData
  = testData
    ++ match filter (λ f, negb ascii || isASCII_ f = true) files with
       | [] => []
       | f :: sel =>
           (if first then [NullLobOf false (content f);
                           NullLobOf true (content f)] else [])
           ++ (LobOf ∘ content <$> f :: sel)
       end.
Proof.
  revert first testData.
  induction files as [|f files IH]; intros first testData.
  - cbn. by rewrite app_nil_r.
  - cbn [lobTestData_loop]. rewrite filter_cons.
    destruct (negb ascii || isASCII_ f) eqn:E.
    + rewrite decide_True by done. rewrite IH.
      destruct (filter _ files) as [|g sel];
        destruct first; cbn; rewrite <- ?app_assoc; reflexivity.
    + rewrite decide_False by done. apply IH.
Qed.

(** X23. [lobTestData] takes the files in order, all of them or, if [ascii]
    is set, those flagged ASCII: two [NullLob] of the first file taken, one
    not valid and one valid, then one [Lob] per file taken; and nothing if no
    file is taken. For files flagged by [isASCII], every value of
    [lobTestData(true)] has only bytes below [utf8.RuneSelf]. *)
Theorem lobTestData_selected (files : list testLobFile) (ascii : bool)
  (contents : list (list Byte.byte)) :
  lobTestData files ascii
  = match filter (λ f, negb ascii || isASCII_ f = true) files with
    | [] => []
    | f :: sel =>
        NullLobOf false (content f) :: NullLobOf true (content f)
        :: (LobOf ∘ content <$> f :: sel)
    end
  ∧ Forall (λ v, Forall (λ b, (Byte.to_N b < RuneSelf)%N) (lobBytes v))
      (lobTestData (readLobFile <$> contents) true).
Proof.
  split.
  - unfold lobTestData. rewrite lobTestData_loop_spec. cbn [app].
    by destruct (filter _ files).
  - unfold lobTestData. rewrite lobTestData_loop_spec. cbn [app negb orb].
    assert (Forall (λ f, Forall (λ b, (Byte.to_N b < RuneSelf)%N) (content f))
              (filter (λ f, isASCII_ f = true) (readLobFile <$> contents)))
      as Hall.
    { apply Forall_forall. intros f Hf. apply list_elem_of_filter in Hf.
      destruct Hf as [Ha Hin]. apply list_elem_of_fmap in Hin.
      destruct Hin as (bytes & -> & _). cbn in *. by apply isASCII_spec. }
    destruct (filter _ (readLobFile <$> contents)) as [|f sel]; [constructor|].
    pose proof (Forall_inv Hall) as Hf.
    cbn [app]. repeat (apply Forall_cons; split; [exact Hf|]).
    apply Forall_fmap. apply Forall_inv_tail in Hall.
    eapply Forall_impl; [exact Hall|]. done.
Qed.

End DataTypeTestFacts.

(** ** The result set: advancing after a failed fetch *)

Section AdvanceAfterError.

Local Open Scope nat_scope.

(** C10 on the code. A cursor over a first result set whose page of three
    rows is not the last, and a second, complete result set of two rows. The
    three rows are handed back, the fetch of the next page fails and the
    error is recorded. [NextResultSet] then returns [nil], clears [lastErr]
    and makes the second result set current, but leaves [pos] at 3 above its
    two rows: every call of [Next] that follows returns [io.EOF], sends
    nothing, and neither row of the second result set is handed back. *)
Theorem NextResultSet_after_failed_fetch_skips_rows :
  let sess0 := Scenario.session Scenario.flaky in
  let r0 := Scenario.cursor [Scenario.firstPage; Scenario.resultB] in
  let '(sess1, r1, xs) := nexts 4 sess0 r0 in
  let '(r2, err) := NextResultSet r1 in
  xs = [Row [VInt 1]; Row [VInt 2]; Row [VString "c"];
        Err Scenario.fetchFailed]
  ∧ lastErr r1 = Some Scenario.fetchFailed
  ∧ bad sess1 = false
  ∧ HasNextResultSet r1 = true
  ∧ err = None
  ∧ lastErr r2 = None
  ∧ rr r2 = Scenario.resultB
  ∧ numRow (rr r2) = 2
  ∧ pos r2 = 3
  ∧ ∀ n, nexts n sess1 r2 = (sess1, r2, replicate n (Err EOF)).
Proof.
  vm_compute nexts at 1. cbv zeta iota beta.
  vm_compute NextResultSet at 1. cbv iota beta.
  split; [reflexivity|]. split; [reflexivity|]. split; [reflexivity|].
  split; [reflexivity|]. split; [reflexivity|]. split; [reflexivity|].
  split; [reflexivity|]. split; [reflexivity|]. split; [reflexivity|].
  intros n. apply nexts_replicate. reflexivity.
Qed.

End AdvanceAfterError.
